(** * PianoIA: gesture piano — finger extraction and the note/chord state machine

    A shallow embedding of [hand_detector.py] (HandDetector.find_positions,
    fingers_up, is_fist), of the note table of [sound_player.py] and of
    [piano_module.py] (PianoModule.__init__, PianoModule.process), followed by
    the properties of the specification checked against it.

    Conventions of the embedding.
    - A Python exception (IndexError on a list access) is [None]; a normal
      return is [Some].
    - Finger flags are the integers 0 and 1 of the source, kept as [Z].
    - [time.time()] is an input of the step; timestamps are exact rationals
      ([Q]), the rounding of floating point subtraction is not modelled.
    - Drawing (the cv2 calls) is left out; the ['active'] flag of every
      virtual key is kept.
    - [find_hands] (line 124 of piano_module.py: MediaPipe's detection and the
      drawing of the landmarks of every hand) is not modelled: [process]
      starts from the results the detector left, and a [None] of [process]
      speaks of the list accesses of lines 127-221 only. *)

From Stdlib Require Import String Bool ZArith QArith Lia Lqa List.
Import ListNotations.

Declare Scope err_scope.
Notation "x <- c ;; k" :=
  (match c with Some x => k | None => None end)
  (at level 61, c at next level, right associativity) : err_scope.
Notation "' p <- c ;; k" :=
  (match c with Some p => k | None => None end)
  (at level 61, p pattern, c at next level, right associativity) : err_scope.

Open Scope err_scope.
Open Scope Z_scope.

(** ** hand_detector.py *)

Module HandDetector.

(** One entry [[id, px, py]] of [landmark_list]. *)
Record landmark := { lm_id : Z; px : Z; py : Z }.

(** What MediaPipe left in [self.results]: the hands, each a list of points
    (already scaled to pixels: [int(lm.x * w)], [int(lm.y * h)]), and the
    label of each hand ([classification[0].label]). *)
Record results := {
  multi_hand_landmarks : list (list (Z * Z));
  multi_handedness : list string
}.

Definition finger_tips : list nat := [4; 8; 12; 16; 20]%nat.
Definition finger_bases : list nat := [2; 5; 9; 13; 17]%nat.

(** [for id, lm in enumerate(my_hand.landmark): landmark_list.append([id, px, py])] *)
Fixpoint enumerate_landmarks (id : Z) (pts : list (Z * Z)) : list landmark :=
  match pts with
  | [] => []
  | (x, y) :: rest => {| lm_id := id; px := x; py := y |} :: enumerate_landmarks (id + 1) rest
  end.

(** [find_positions(img, hand_no)], without the bounding box: the pair
    [(landmark_list, hand_type)]; [hand_type] is [None] as in the source. *)
Definition find_positions (r : results) (hand_no : nat)
  : option (list landmark * option string) :=
  match multi_hand_landmarks r with
  | [] => Some ([], None)
  | _ :: _ =>
      if (hand_no <? length (multi_hand_landmarks r))%nat then
        hand_type <- match multi_handedness r with
                     | [] => Some None
                     | _ :: _ => label <- nth_error (multi_handedness r) hand_no ;;
                                 Some (Some label)
                     end ;;
        my_hand <- nth_error (multi_hand_landmarks r) hand_no ;;
        Some (enumerate_landmarks 0 my_hand, hand_type)
      else Some ([], None)
  end.

Definition flag (b : bool) : Z := if b then 1 else 0.

(** The thumb test, lines 141-150: any label other than "Right" takes the
    [else] branch. *)
Definition thumb_up (landmark_list : list landmark) (hand_type : string) : option Z :=
  tip <- nth_error finger_tips 0 ;;
  base <- nth_error finger_bases 0 ;;
  t <- nth_error landmark_list tip ;;
  b <- nth_error landmark_list base ;;
  if String.eqb hand_type "Right"
  then Some (flag (px t <? px b))
  else Some (flag (px t >? px b)).

(** One round of the loop of lines 153-157. *)
Definition finger_up (landmark_list : list landmark) (id : nat) : option Z :=
  tip <- nth_error finger_tips id ;;
  t <- nth_error landmark_list tip ;;
  m <- nth_error landmark_list (tip - 2) ;;
  Some (flag (py t <? py m)).

Fixpoint fingers_loop (landmark_list : list landmark) (ids : list nat) : option (list Z) :=
  match ids with
  | [] => Some []
  | id :: rest =>
      f <- finger_up landmark_list id ;;
      fs <- fingers_loop landmark_list rest ;;
      Some (f :: fs)
  end.

Definition fingers_up (landmark_list : list landmark) (hand_type : string)
  : option (list Z) :=
  match landmark_list with
  | [] => Some [0; 0; 0; 0; 0]
  | _ :: _ =>
      thumb <- thumb_up landmark_list hand_type ;;
      others <- fingers_loop landmark_list (seq 1 4) ;;
      Some (thumb :: others)
  end.

(** [sum(fingers) == 0] *)
Definition is_fist (fingers : list Z) : bool :=
  fold_right Z.add 0 fingers =? 0.

End HandDetector.

(** ** sound_player.py *)

Module SoundPlayer.

(** [note_freqs] of [_generate_notes], in Hz (261.63 is 26163/100). *)
Definition note_freqs : list (string * Q) :=
  [ ("do4"%string, 26163 # 100); ("re4"%string, 29366 # 100);
    ("mi4"%string, 32963 # 100); ("fa4"%string, 34923 # 100);
    ("sol4"%string, 39200 # 100); ("la4"%string, 44000 # 100);
    ("si4"%string, 49388 # 100); ("do5"%string, 52325 # 100);
    ("re5"%string, 58733 # 100); ("mi5"%string, 65926 # 100) ].

Fixpoint lookup (note : string) (table : list (string * Q)) : option Q :=
  match table with
  | [] => None
  | (name, f) :: rest => if String.eqb name note then Some f else lookup note rest
  end.

Definition frequency (note : string) : option Q := lookup note note_freqs.

End SoundPlayer.

(** ** piano_module.py *)

Module PianoModule.

Import HandDetector.

Inductive side := Right | Left.

Definition other (s : side) : side :=
  match s with Right => Left | Left => Right end.

(** The label MediaPipe gives a hand of that side. *)
Definition side_label (s : side) : string :=
  match s with Right => "Right"%string | Left => "Left"%string end.

Definition right_hand_notes : list string :=
  ["la4"; "si4"; "do5"; "re5"; "mi5"]%string.
Definition left_hand_notes : list string :=
  ["do4"; "re4"; "mi4"; "fa4"; "sol4"]%string.

Definition chord_cooldown : Q := 1.

(** The note list of a side as [__init__] has it (the argument of
    [play_chord] and the order of the virtual keys). *)
Definition hand_notes (s : side) : list string :=
  match s with Right => right_hand_notes | Left => left_hand_notes end.

(** The list a finger index is looked up in: [self.right_hand_notes] for the
    right hand, [list(self.left_hand_notes)[::-1]] for the left hand. *)
Definition finger_notes (s : side) : list string :=
  match s with Right => right_hand_notes | Left => rev left_hand_notes end.

(** [self.right_hand_notes[idx]] and [list(self.left_hand_notes)[::-1][idx]] *)
Definition note_for (s : side) (idx : nat) : option string :=
  nth_error (finger_notes s) idx.

(** A virtual key: the fields ['note'] and ['active'] of the dictionaries
    built by [_create_piano_visualization]. *)
Record key := { key_note : string; key_active : bool }.

Definition _create_piano_visualization (is_right : bool) : list key :=
  map (fun note => {| key_note := note; key_active := false |})
      (if is_right then right_hand_notes else left_hand_notes).

(** What the sound player is asked to do, and the falling edge of a finger.
    - [NoteOn note]: [self.sound_player.play_note(note)] (lines 151, 190);
    - [NoteOff note]: the [elif] branch of a finger that went down (lines
      159-163, 198-202); the source makes no sound call there, it clears the
      key, and the log records that the branch ran for [note];
    - [Chord notes]: [self.sound_player.play_chord(notes)] (lines 168, 207). *)
Inductive NoteEvent :=
| NoteOn (note : string)
| NoteOff (note : string)
| Chord (notes : list string).

(** The attributes of a [PianoModule] that [process] reads and writes. *)
Record t := {
  previous_fingers_right : list Z;
  previous_fingers_left : list Z;
  last_chord_time : Q;
  last_fist_right : bool;
  last_fist_left : bool;
  piano_keys_right : list key;
  piano_keys_left : list key
}.

(** [__init__] *)
Definition init : t := {|
  previous_fingers_right := [0; 0; 0; 0; 0];
  previous_fingers_left := [0; 0; 0; 0; 0];
  last_chord_time := 0;
  last_fist_right := false;
  last_fist_left := false;
  piano_keys_right := _create_piano_visualization true;
  piano_keys_left := _create_piano_visualization false
|}.

(** The source writes the branch of each hand out in full; the two branches
    differ in the attributes they touch and in the note lookup, which the
    embedding reaches through the side. *)
Definition previous_fingers (s : side) (st : t) : list Z :=
  match s with Right => previous_fingers_right st | Left => previous_fingers_left st end.

Definition last_fist (s : side) (st : t) : bool :=
  match s with Right => last_fist_right st | Left => last_fist_left st end.

Definition piano_keys (s : side) (st : t) : list key :=
  match s with Right => piano_keys_right st | Left => piano_keys_left st end.

(** The writes of one branch: the keys of the side, [last_chord_time],
    [previous_fingers_<side> = fingers.copy()], [last_fist_<side> = is_fist]. *)
Definition store (s : side) (fingers : list Z) (fist : bool) (keys : list key)
           (chord_time : Q) (st : t) : t :=
  match s with
  | Right => {| previous_fingers_right := fingers;
                previous_fingers_left := previous_fingers_left st;
                last_chord_time := chord_time;
                last_fist_right := fist;
                last_fist_left := last_fist_left st;
                piano_keys_right := keys;
                piano_keys_left := piano_keys_left st |}
  | Left => {| previous_fingers_right := previous_fingers_right st;
               previous_fingers_left := fingers;
               last_chord_time := chord_time;
               last_fist_right := last_fist_right st;
               last_fist_left := fist;
               piano_keys_right := piano_keys_right st;
               piano_keys_left := keys |}
  end.

(** [for key in keys: if key['note'] == note: key['active'] = b] *)
Definition set_active (note : string) (b : bool) (keys : list key) : list key :=
  map (fun k => if String.eqb (key_note k) note
                then {| key_note := key_note k; key_active := b |}
                else k) keys.

(** [for key in keys: key['active'] = b] *)
Definition set_all (b : bool) (keys : list key) : list key :=
  map (fun k => {| key_note := key_note k; key_active := b |}) keys.

(** The body of the loop of lines 147-163 (186-202) for one finger. *)
Definition finger_edge (s : side) (previous : list Z) (idx : nat) (finger_up : Z)
           (keys : list key) : option (list key * list NoteEvent) :=
  if finger_up =? 1 then
    p <- nth_error previous idx ;;
    if p =? 0 then
      note <- note_for s idx ;;
      Some (set_active note true keys, [NoteOn note])
    else Some (keys, [])
  else if finger_up =? 0 then
    p <- nth_error previous idx ;;
    if p =? 1 then
      note <- note_for s idx ;;
      Some (set_active note false keys, [NoteOff note])
    else Some (keys, [])
  else Some (keys, []).

(** [for idx, finger_up in enumerate(fingers)], from index [idx] on. *)
Fixpoint finger_loop (s : side) (previous : list Z) (idx : nat) (fingers : list Z)
         (keys : list key) : option (list key * list NoteEvent) :=
  match fingers with
  | [] => Some (keys, [])
  | finger_up :: rest =>
      '(keys1, ev1) <- finger_edge s previous idx finger_up keys ;;
      '(keys2, ev2) <- finger_loop s previous (S idx) rest keys1 ;;
      Some (keys2, ev1 ++ ev2)
  end.

(** [current_time - self.last_chord_time > self.chord_cooldown] *)
Definition cooldown_elapsed (current_time last : Q) : bool :=
  negb (Qle_bool (current_time - last) chord_cooldown).

(** The chord condition of lines 167 and 206:
    [is_fist and not self.last_fist_<side> and
     current_time - self.last_chord_time > self.chord_cooldown]. *)
Definition chord_due (st : t) (s : side) (fist : bool) (current_time : Q) : bool :=
  fist && negb (last_fist s st) && cooldown_elapsed current_time (last_chord_time st).

(** The branch of one hand, lines 145-182 for "Right" and 184-221 for
    "Left"; [current_time] is what [time.time()] returns at line 166 (205). *)
Definition process_side (st : t) (s : side) (fingers : list Z) (current_time : Q)
  : option (t * list NoteEvent) :=
  let fist := is_fist fingers in
  '(keys1, notes) <- finger_loop s (previous_fingers s st) 0 fingers (piano_keys s st) ;;
  let chord := chord_due st s fist current_time in
  let keys2 := if chord then set_all true keys1 else keys1 in
  let keys3 := if negb fist && last_fist s st then set_all false keys2 else keys2 in
  Some (store s fingers fist keys3
              (if chord then current_time else last_chord_time st) st,
        notes ++ (if chord then [Chord (hand_notes s)] else [])).

(** Python truth of [hand_type]: neither [None] nor the empty string. *)
Definition truthy (hand_type : option string) : bool :=
  match hand_type with
  | Some EmptyString | None => false
  | Some _ => true
  end.

(** The body of [for hand_idx in range(2)], lines 128-221; [clock hand_idx]
    is the reading of [time.time()] made while this hand is handled. *)
Definition process_hand (st : t) (r : results) (clock : nat -> Q) (hand_idx : nat)
  : option (t * list NoteEvent) :=
  '(landmark_list, hand_type) <- find_positions r hand_idx ;;
  match landmark_list, hand_type with
  | _ :: _, Some label =>
      if truthy hand_type then
        fingers <- fingers_up landmark_list label ;;
        if String.eqb label "Right" then process_side st Right fingers (clock hand_idx)
        else if String.eqb label "Left" then process_side st Left fingers (clock hand_idx)
        else Some (st, [])
      else Some (st, [])
  | _, _ => Some (st, [])
  end.

(** [process(img)]: the state after the frame and the events of the frame
    in the order they happen. *)
Definition process (st : t) (r : results) (clock : nat -> Q)
  : option (t * list NoteEvent) :=
  '(st1, ev0) <- process_hand st r clock 0 ;;
  '(st2, ev1) <- process_hand st1 r clock 1 ;;
  Some (st2, ev0 ++ ev1).

(** A frame whose hands are all handled at the one timestamp [now]. *)
Definition process_frame (st : t) (r : results) (now : Q)
  : option (t * list NoteEvent) :=
  process st r (fun _ => now).

(** A sequence of calls of [process], each frame with its clock readings. *)
Fixpoint run (st : t) (frames : list (results * (nat -> Q)))
  : option (t * list NoteEvent) :=
  match frames with
  | [] => Some (st, [])
  | (r, clock) :: rest =>
      '(st1, ev1) <- process st r clock ;;
      '(st2, ev2) <- run st1 rest ;;
      Some (st2, ev1 ++ ev2)
  end.

End PianoModule.

(** ** Hands used as concrete inputs *)

Module Hands.

Import HandDetector PianoModule.

(** The 21 points of a hand whose fingers are held as the five booleans say:
    every joint sits at (10, 10); a raised thumb has its tip at x = 5 for a
    right hand and x = 15 for a left hand; a raised finger has its tip at
    y = 5. *)
Definition points (s : side) (thumb index middle ring little : bool) : list (Z * Z) :=
  let j := (10, 10) in
  let tx := if thumb then (match s with Right => 5 | Left => 15 end) else 10 in
  let tip (up : bool) := (10, if up then 5 else 10) in
  [ j; j; j; j; (tx, 10);
    j; j; j; tip index;
    j; j; j; tip middle;
    j; j; j; tip ring;
    j; j; j; tip little ].

Definition open_hand (s : side) : list (Z * Z) := points s true true true true true.
Definition closed_hand (s : side) : list (Z * Z) := points s false false false false false.

(** The detector's results for a frame that shows the given hands, each with
    its label. *)
Definition frame (hands : list (list (Z * Z) * string)) : results :=
  {| multi_hand_landmarks := map fst hands; multi_handedness := map snd hands |}.

Definition one (s : side) (pts : list (Z * Z)) : results :=
  frame [(pts, side_label s)].

(** A hand with only the thumb raised. *)
Definition thumb_only (s : side) : list (Z * Z) := points s true false false false false.

(** A frame in which MediaPipe labels both hands "Right": the first with the
    thumb raised, the second a fist. *)
Definition two_right : results :=
  frame [(thumb_only Right, "Right"%string); (closed_hand Right, "Right"%string)].

End Hands.

(** ** Vocabulary of the properties *)

Module Props.

Import HandDetector PianoModule.

Definition is_note_on (note : string) (e : NoteEvent) : bool :=
  match e with NoteOn n => String.eqb n note | _ => false end.

Definition is_note_off (note : string) (e : NoteEvent) : bool :=
  match e with NoteOff n => String.eqb n note | _ => false end.

Definition is_chord (e : NoteEvent) : bool :=
  match e with Chord _ => true | _ => false end.

Definition is_note_edge (e : NoteEvent) : bool :=
  match e with NoteOn _ | NoteOff _ => true | Chord _ => false end.

(** How many [NoteOn note], [NoteOff note], [Chord _] a log holds. *)
Definition note_ons (note : string) (evs : list NoteEvent) : nat :=
  length (filter (is_note_on note) evs).

Definition note_offs (note : string) (evs : list NoteEvent) : nat :=
  length (filter (is_note_off note) evs).

Definition chords (evs : list NoteEvent) : nat :=
  length (filter is_chord evs).

Definition note_edges (evs : list NoteEvent) : nat :=
  length (filter is_note_edge evs).

Definition mem (note : string) (notes : list string) : bool :=
  existsb (String.eqb note) notes.

(** An event belongs to a side when it names a note of that side. *)
Definition of_side (s : side) (e : NoteEvent) : bool :=
  match e with
  | NoteOn n | NoteOff n => mem n (hand_notes s)
  | Chord ns => existsb (fun n => mem n (hand_notes s)) ns
  end.

(** Strictly rising pitch, by the frequency table of the sound player; a
    name missing from the table makes the list not ascending. *)
Fixpoint ascending (notes : list string) : bool :=
  match notes with
  | [] => true
  | a :: rest =>
      match SoundPlayer.frequency a, rest with
      | None, _ => false
      | Some _, [] => true
      | Some fa, b :: _ =>
          match SoundPlayer.frequency b with
          | Some fb => negb (Qle_bool fb fa) && ascending rest
          | None => false
          end
      end
  end.

(** The pixel coordinates of landmark [k] of a list. *)
Definition x_of (landmark_list : list landmark) (k : nat) : Z :=
  px (nth k landmark_list {| lm_id := 0; px := 0; py := 0 |}).
Definition y_of (landmark_list : list landmark) (k : nat) : Z :=
  py (nth k landmark_list {| lm_id := 0; px := 0; py := 0 |}).

(** What one finger adds to the log. *)
Definition edge_of (s : side) (previous : list Z) (idx : nat) (finger_up : Z)
  : list NoteEvent :=
  match note_for s idx with
  | None => []
  | Some note =>
      if (finger_up =? 1) && (nth idx previous 2 =? 0) then [NoteOn note]
      else if (finger_up =? 0) && (nth idx previous 2 =? 1) then [NoteOff note]
      else []
  end.

(** The log of the loop from index [idx] on. *)
Fixpoint edges_from (s : side) (previous : list Z) (idx : nat) (fingers : list Z)
  : list NoteEvent :=
  match fingers with
  | [] => []
  | finger_up :: rest => edge_of s previous idx finger_up ++ edges_from s previous (S idx) rest
  end.

(** The stored finger lists have the five entries [__init__] gives them. *)
Definition wf_state (st : t) : Prop :=
  length (previous_fingers_right st) = 5%nat /\
  length (previous_fingers_left st) = 5%nat.

(** The hand at [hand_idx], when the frame has one, has 21 points, and the
    labels come one per hand. *)
Definition wf_hand (r : results) (hand_idx : nat) : Prop :=
  length (multi_handedness r) = length (multi_hand_landmarks r) /\
  match nth_error (multi_hand_landmarks r) hand_idx with
  | Some pts => length pts = 21%nat
  | None => True
  end.

Definition wf_results (r : results) : Prop := wf_hand r 0 /\ wf_hand r 1.

(** The label of the hand at [hand_idx], if the frame has that hand. *)
Definition label_at (r : results) (hand_idx : nat) : option string :=
  nth_error (multi_handedness r) hand_idx.

(** No hand handled in the frame carries the label of [s]. *)
Definition unseen (s : side) (r : results) : Prop :=
  label_at r 0 <> Some (side_label s) /\ label_at r 1 <> Some (side_label s).

(** The hands of a frame show each side at most once: the second hand does
    not repeat the side label of the first. *)
Definition one_per_side (r : results) : Prop :=
  forall s, label_at r 0 = Some (side_label s) -> label_at r 1 <> Some (side_label s).

(** What a round of the loop over the hands makes of the hand at [hand_idx],
    before any state is touched: [None] when a list access fails,
    [Some None] when the hand is passed over, [Some (Some (s, fingers))] when
    the branch of side [s] is to run on [fingers]. *)
Definition observed (r : results) (hand_idx : nat) : option (option (side * list Z)) :=
  '(landmark_list, hand_type) <- find_positions r hand_idx ;;
  match landmark_list, hand_type with
  | _ :: _, Some label =>
      if truthy hand_type then
        fingers <- fingers_up landmark_list label ;;
        if String.eqb label "Right" then Some (Some (Right, fingers))
        else if String.eqb label "Left" then Some (Some (Left, fingers))
        else Some None
      else Some None
  | _, _ => Some None
  end.

(** A trace of handled hands: the side, the extracted fingers and the clock
    reading of each, in the order the branches run. *)
Fixpoint run_sides (st : t) (steps : list (side * list Z * Q))
  : option (t * list NoteEvent) :=
  match steps with
  | [] => Some (st, [])
  | (s, fingers, now) :: rest =>
      '(st1, ev1) <- process_side st s fingers now ;;
      '(st2, ev2) <- run_sides st1 rest ;;
      Some (st2, ev1 ++ ev2)
  end.

(** The handled hands of a frame as a trace. *)
Definition step_of (o : option (side * list Z)) (now : Q) : list (side * list Z * Q) :=
  match o with
  | None => []
  | Some (s, fingers) => [(s, fingers, now)]
  end.

Definition steps (r : results) (clock : nat -> Q) : option (list (side * list Z * Q)) :=
  o0 <- observed r 0 ;;
  o1 <- observed r 1 ;;
  Some (step_of o0 (clock 0%nat) ++ step_of o1 (clock 1%nat)).

(** The state a trace leaves behind (the starting state if a step fails). *)
Definition state_after (st : t) (tr : list (side * list Z * Q)) : t :=
  match run_sides st tr with
  | Some (st', _) => st'
  | None => st
  end.

(** A frame fit to be handled, whose clock readings are all at most the
    cooldown past [t0]. *)
Definition within (t0 : Q) (f : results * (nat -> Q)) : Prop :=
  wf_results (fst f)
  /\ (snd f 0%nat - t0 <= 1)%Q
  /\ (snd f 1%nat - t0 <= 1)%Q.

End Props.

(** ** hand_detector.py: the bounding box of [find_positions] *)

Module BoundingBox.

Import HandDetector.

(** The running minimum and maximum of lines 102-110, from the starting
    values [(x_min, y_min, x_max, y_max)]. *)
Fixpoint extent (pts : list (Z * Z)) (acc : Z * Z * Z * Z) : Z * Z * Z * Z :=
  match pts with
  | [] => acc
  | (x, y) :: rest =>
      let '(x_min, y_min, x_max, y_max) := acc in
      extent rest (Z.min x_min x, Z.min y_min y, Z.max x_max x, Z.max y_max y)
  end.

(** Lines 99-119 for an image [w] wide and [h] high:
    [[x_min, y_min, x_max - x_min, y_max - y_min]] after the margin of 20. *)
Definition bbox (w h : Z) (pts : list (Z * Z)) : list Z :=
  let '(x_min, y_min, x_max, y_max) := extent pts (w, h, 0, 0) in
  let margin := 20 in
  let x_min := Z.max 0 (x_min - margin) in
  let y_min := Z.max 0 (y_min - margin) in
  let x_max := Z.min w (x_max + margin) in
  let y_max := Z.min h (y_max + margin) in
  [x_min; y_min; x_max - x_min; y_max - y_min].

(** [find_positions(img, hand_no)] with its three results
    [(landmark_list, bbox, hand_type)]; [w] and [h] come from [img.shape]. *)
Definition find_positions_bbox (r : results) (w h : Z) (hand_no : nat)
  : option (list landmark * list Z * option string) :=
  match multi_hand_landmarks r with
  | [] => Some ([], [], None)
  | _ :: _ =>
      if (hand_no <? length (multi_hand_landmarks r))%nat then
        hand_type <- match multi_handedness r with
                     | [] => Some None
                     | _ :: _ => label <- nth_error (multi_handedness r) hand_no ;;
                                 Some (Some label)
                     end ;;
        my_hand <- nth_error (multi_hand_landmarks r) hand_no ;;
        Some (enumerate_landmarks 0 my_hand, bbox w h my_hand, hand_type)
      else Some ([], [], None)
  end.

End BoundingBox.

(** ** sound_player.py: the notes that are loaded and played *)

Module Player.

(** [note_names] of [_load_notes]. *)
Definition note_names : list string :=
  ["do4"; "re4"; "mi4"; "fa4"; "sol4"; "la4"; "si4"; "do5"; "re5"; "mi5"]%string.

(** [os.path.join('notes', f'{note}.wav')], with the separator of POSIX. *)
Definition file_path (note : string) : string :=
  String.append "notes/" (String.append note ".wav").

(** The file system as far as the player looks at it: the paths that exist,
    each with whether [pygame.mixer.Sound] can load it ([true]) or raises
    [pygame.error] on it ([false]); the first entry of a path counts. *)
Fixpoint file_lookup (fs : list (string * bool)) (path : string) : option bool :=
  match fs with
  | [] => None
  | (p, sound) :: rest => if String.eqb p path then Some sound else file_lookup rest path
  end.

(** [os.path.exists(path)] *)
Definition file_exists (fs : list (string * bool)) (path : string) : bool :=
  match file_lookup fs path with
  | Some _ => true
  | None => false
  end.

(** The loop of [_generate_notes]: a file that exists is left alone
    ([continue]), whatever it holds; a missing one is written by
    [wavfile.write] as a sound that can be loaded. The samples written are
    not modelled, and the write is taken to succeed. *)
Fixpoint generate (table : list (string * Q)) (fs : list (string * bool))
  : list (string * bool) :=
  match table with
  | [] => fs
  | (note_name, _) :: rest =>
      if file_exists fs (file_path note_name) then generate rest fs
      else generate rest ((file_path note_name, true) :: fs)
  end.

Definition _generate_notes (fs : list (string * bool)) : list (string * bool) :=
  generate SoundPlayer.note_freqs fs.

(** [self.notes]: a dictionary from note name to the sound, which is named
    here by the file it was loaded from. *)
Fixpoint dict_get (name : string) (notes : list (string * string)) : option string :=
  match notes with
  | [] => None
  | (k, v) :: rest => if String.eqb k name then Some v else dict_get name rest
  end.

(** [notes[name] = sound]: the entry is replaced where the key is present and
    added at the end otherwise. *)
Fixpoint dict_set (name sound : string) (notes : list (string * string))
  : list (string * string) :=
  match notes with
  | [] => [(name, sound)]
  | (k, v) :: rest =>
      if String.eqb k name then (k, sound) :: rest
      else (k, v) :: dict_set name sound rest
  end.

(** The loop of [_load_notes]: the dictionary and the names a warning is
    printed for; [None] when [pygame.mixer.Sound] raises on a file that
    exists and is not a sound. *)
Fixpoint load (names : list string) (fs : list (string * bool))
         (notes : list (string * string)) (warned : list string)
  : option (list (string * string) * list string) :=
  match names with
  | [] => Some (notes, warned)
  | note :: rest =>
      match file_lookup fs (file_path note) with
      | Some true => load rest fs (dict_set note (file_path note) notes) warned
      | Some false => None
      | None => load rest fs notes (warned ++ [note])
      end
  end.

Definition _load_notes (fs : list (string * bool))
  : option (list (string * string) * list string) :=
  load note_names fs [] [].

(** [__init__]: the files after [_generate_notes], the dictionary after
    [_load_notes] and the names warned about. [pygame.mixer.init],
    [pygame.init] and [os.makedirs] are taken to succeed: the one failure
    modelled is that of [pygame.mixer.Sound] in [_load_notes]. *)
Definition init (fs : list (string * bool))
  : option (list (string * bool) * list (string * string) * list string) :=
  let fs1 := _generate_notes fs in
  '(notes, warned) <- _load_notes fs1 ;;
  Some (fs1, notes, warned).

(** What a call does: it starts a sound or prints a line. *)
Inductive output :=
| Play (sound : string)
| Print (line : string).

Definition play_note (notes : list (string * string)) (note_name : string)
  : list output :=
  match dict_get note_name notes with
  | Some sound => [Play sound]
  | None => [Print (String.append "Nota no encontrada: " note_name)]
  end.

Fixpoint play_chord (notes : list (string * string)) (note_names : list string)
  : list output :=
  match note_names with
  | [] => []
  | note :: rest =>
      match dict_get note notes with
      | Some sound => [Play sound]
      | None => [Print (String.append "Nota no encontrada: " note)]
      end ++ play_chord notes rest
  end.

End Player.

(** ** piano_module.py: the virtual keys as they are drawn *)

Module Keyboard.

Import PianoModule.

(** [str.upper()] on the ASCII letters the note names are made of. *)
Definition upper_char (c : Ascii.ascii) : Ascii.ascii :=
  let n := Ascii.nat_of_ascii c in
  if ((97 <=? n)%nat && (n <=? 122)%nat)%bool then Ascii.ascii_of_nat (n - 32) else c.

Fixpoint upper (s : string) : string :=
  match s with
  | EmptyString => EmptyString
  | String c rest => String (upper_char c) (upper rest)
  end.

(** The dictionary of one key, with all the fields of lines 69-79. *)
Record key_dict := {
  kx : Z;
  ky : Z;
  kwidth : Z;
  kheight : Z;
  kcolor : Z * Z * Z;
  kactive_color : Z * Z * Z;
  knote : string;
  kactive : bool;
  klabel : string
}.

(** [for i, note in enumerate(notes)], from index [i] on. *)
Fixpoint keys_loop (start_x start_y key_width key_height : Z) (i : Z)
         (notes : list string) : list key_dict :=
  match notes with
  | [] => []
  | note :: rest =>
      {| kx := start_x + i * key_width;
         ky := start_y;
         kwidth := key_width;
         kheight := key_height;
         kcolor := (255, 255, 255);
         kactive_color := (173, 216, 230);
         knote := note;
         kactive := false;
         klabel := upper note |}
      :: keys_loop start_x start_y key_width key_height (i + 1) rest
  end.

(** [_create_piano_visualization(is_right)] with every field. *)
Definition create (is_right : bool) : list key_dict :=
  let key_width := 40 in
  let key_height := 120 in
  let start_x := if negb is_right then 50 else 350 in
  let start_y := 50 in
  let notes := if is_right then right_hand_notes else left_hand_notes in
  keys_loop start_x start_y key_width key_height 0 notes.

End Keyboard.

(** ** Vocabulary of the further properties *)

Module View.

Import HandDetector PianoModule Props.

(** Every entry is 0 or 1. *)
Definition flags (fingers : list Z) : Prop :=
  Forall (fun b => b = 0 \/ b = 1) fingers.

(** Finger [i] goes up, or down, from [previous] to [fingers]. *)
Definition rising (previous fingers : list Z) (i : nat) : bool :=
  (nth i fingers 2 =? 1) && (nth i previous 2 =? 0).

Definition falling (previous fingers : list Z) (i : nat) : bool :=
  (nth i fingers 2 =? 0) && (nth i previous 2 =? 1).

(** The fist opens in this run of the branch (line 176). *)
Definition releases (st : t) (s : side) (fingers : list Z) : bool :=
  negb (is_fist fingers) && last_fist s st.

(** What one finger does to one key. *)
Definition key_edge (s : side) (previous : list Z) (idx : nat) (finger_up : Z)
           (k : key) : key :=
  match note_for s idx with
  | None => k
  | Some note =>
      if String.eqb (key_note k) note then
        if (finger_up =? 1) && (nth idx previous 2 =? 0)
        then {| key_note := key_note k; key_active := true |}
        else if (finger_up =? 0) && (nth idx previous 2 =? 1)
             then {| key_note := key_note k; key_active := false |}
             else k
      else k
  end.

(** What the loop over the fingers, from index [idx] on, does to one key. *)
Fixpoint key_from (s : side) (previous : list Z) (idx : nat) (fingers : list Z)
         (k : key) : key :=
  match fingers with
  | [] => k
  | finger_up :: rest =>
      key_from s previous (S idx) rest (key_edge s previous idx finger_up k)
  end.

(** The calls the events of [process] stand for, made on a player whose
    dictionary is [notes]: a NoteOn is [play_note], a Chord is [play_chord],
    the falling edge makes no call. *)
Fixpoint perform (notes : list (string * string)) (evs : list NoteEvent)
  : list Player.output :=
  match evs with
  | [] => []
  | NoteOn note :: rest => Player.play_note notes note ++ perform notes rest
  | NoteOff _ :: rest => perform notes rest
  | Chord names :: rest => Player.play_chord notes names ++ perform notes rest
  end.

Definition is_play (o : Player.output) : bool :=
  match o with Player.Play _ => true | Player.Print _ => false end.

(** The NoteOn of a log, whatever the note. *)
Definition is_on (e : NoteEvent) : bool :=
  match e with NoteOn _ => true | _ => false end.

(** The states [process] keeps to: five flags stored for each hand, a fist
    flag that is only set over five zeros, and the keys of each hand named by
    its notes in order. *)
Definition steady (st : t) : Prop :=
  forall s,
    length (previous_fingers s st) = 5%nat
    /\ flags (previous_fingers s st)
    /\ (last_fist s st = true -> previous_fingers s st = [0; 0; 0; 0; 0])
    /\ map key_note (piano_keys s st) = hand_notes s.

(** Every hand of the frame that is handled for side [s] shows a fist. *)
Definition holds_fist (s : side) (r : results) : Prop :=
  forall hand_idx fingers,
    (hand_idx < 2)%nat ->
    observed r hand_idx = Some (Some (s, fingers)) -> is_fist fingers = true.

(** [n] chords while the timer went from [t0] to [t1]: none and the timer
    stood still, or some and the timer advanced by more than [n] cooldowns. *)
Definition paced (n : nat) (t0 t1 : Q) : Prop :=
  (n = 0%nat /\ t1 = t0) \/ (n <> 0%nat /\ (inject_Z (Z.of_nat n) < t1 - t0)%Q).

(** An event that names notes of a hand of the piano: the note of a NoteOn or
    NoteOff is one of the ten, the notes of a Chord are the five of a hand. *)
Definition piano_event (e : NoteEvent) : Prop :=
  match e with
  | NoteOn n | NoteOff n => exists s, mem n (hand_notes s) = true
  | Chord ns => exists s, ns = hand_notes s
  end.

(** The frame shows side [s] in exactly one of its two handled hands, the
    hand with the points [pts]. *)
Definition shows_once (r : results) (s : side) (pts : list (Z * Z)) : Prop :=
  (nth_error (multi_hand_landmarks r) 0 = Some pts
   /\ label_at r 0 = Some (side_label s)
   /\ label_at r 1 <> Some (side_label s))
  \/ (label_at r 0 <> Some (side_label s)
      /\ nth_error (multi_hand_landmarks r) 1 = Some pts
      /\ label_at r 1 = Some (side_label s)).

(** A frame [find_hands] can draw and [find_positions] can label: every
    hand, however many there are, has 21 landmarks, and the labels come one
    per hand. *)
Definition drawable (r : results) : Prop :=
  length (multi_handedness r) = length (multi_hand_landmarks r)
  /\ Forall (fun pts => length pts = 21%nat) (multi_hand_landmarks r).

(** The first two hands of a frame, with their labels. *)
Definition first_two (r : results) : results :=
  {| multi_hand_landmarks := firstn 2 (multi_hand_landmarks r);
     multi_handedness := firstn 2 (multi_handedness r) |}.

End View.

Import HandDetector PianoModule Props.

(** ** The finger-state extractor *)

Section Extractor.

Variable hand : list landmark.

Let x := x_of hand.
Let y := y_of hand.

(** C6. With 21 landmarks, the thumb flag of a right hand is 1 exactly when
    the x of the tip (landmark 4) is strictly below the x of the base
    (landmark 2), for a left hand exactly when it is strictly above; the flag
    of each other finger is 1 exactly when the y of its tip (8, 12, 16, 20)
    is strictly below the y of the landmark two places before the tip
    (6, 10, 14, 18). *)
Theorem fingers_up_rule :
  length hand = 21%nat ->
  fingers_up hand "Right"
    = Some [flag (x 4 <? x 2); flag (y 8 <? y 6); flag (y 12 <? y 10);
            flag (y 16 <? y 14); flag (y 20 <? y 18)]
  /\ fingers_up hand "Left"
    = Some [flag (x 4 >? x 2); flag (y 8 <? y 6); flag (y 12 <? y 10);
            flag (y 16 <? y 14); flag (y 20 <? y 18)].
Proof.
  subst x y. generalize hand. clear hand. intros ll Hlen.
  do 21 (destruct ll as [|? ll]; [discriminate Hlen|]).
  destruct ll; [|discriminate Hlen].
  split; reflexivity.
Qed.

End Extractor.

Lemma flag_one (b : bool) : flag b = 1 <-> b = true.
Proof. destruct b; simpl; split; intro H; try reflexivity; discriminate H. Qed.

Lemma flag_zero (b : bool) : flag b = 0 <-> b = false.
Proof. destruct b; simpl; split; intro H; try reflexivity; discriminate H. Qed.

Lemma fingers_up_rule_witness :
  let hand := enumerate_landmarks 0 (Hands.points Right true false true false false) in
  length hand = 21%nat
  /\ fingers_up hand "Right" = Some [1; 0; 1; 0; 0]
  /\ fingers_up hand "Left" = Some [0; 0; 1; 0; 0].
Proof.
  split; [reflexivity|].
  exact (fingers_up_rule
           (enumerate_landmarks 0 (Hands.points Right true false true false false))
           eq_refl).
Defined.

(** C9. An empty landmark list is answered with five zeros, whatever the
    label; no list access is made. *)
Theorem fingers_up_empty (hand_type : string) :
  fingers_up [] hand_type = Some [0; 0; 0; 0; 0].
Proof. reflexivity. Qed.

(** ** The note mapping *)

(** C4. Fingers 0..4 of the right hand take the notes of the right list in
    order; finger [i] of the left hand takes element [4 - i] of the left list,
    so the little finger has its first (lowest) note and the thumb its last
    (highest); both lists rise in pitch. *)
Theorem note_for_mapping (i : nat) :
  (i < 5)%nat ->
  note_for Right i = nth_error right_hand_notes i
  /\ note_for Left i = nth_error left_hand_notes (4 - i)
  /\ ascending right_hand_notes = true
  /\ ascending left_hand_notes = true
  /\ note_for Left 4 = hd_error left_hand_notes
  /\ note_for Left 0 = Some (last left_hand_notes ""%string).
Proof.
  intros Hi.
  repeat split; try reflexivity.
  do 5 (destruct i as [|i]; [reflexivity|]). lia.
Qed.

Lemma note_for_mapping_witness :
  (1 < 5)%nat
  /\ note_for Right 1 = Some "si4"%string
  /\ note_for Left 1 = Some "fa4"%string.
Proof.
  split; [lia|].
  destruct (note_for_mapping 1) as (Hr & Hl & _); [lia|].
  split; [exact Hr | exact Hl].
Defined.

(** ** The finger loop *)

Lemma note_for_inj (s : side) (i j : nat) (note : string) :
  note_for s i = Some note -> note_for s j = Some note -> i = j.
Proof.
  unfold note_for. intros Hi Hj.
  assert (Hnd : NoDup (finger_notes s)).
  { destruct s; simpl; repeat constructor; simpl; intuition discriminate. }
  rewrite NoDup_nth_error in Hnd. apply Hnd.
  - apply nth_error_Some. rewrite Hi. discriminate.
  - now rewrite Hi, Hj.
Qed.

Lemma note_for_lt (s : side) (i : nat) (note : string) :
  note_for s i = Some note -> (i < 5)%nat.
Proof.
  unfold note_for. intros H.
  assert (Hl : (i < length (finger_notes s))%nat) by (apply nth_error_Some; rewrite H; discriminate).
  destruct s; exact Hl.
Qed.

Lemma note_for_some (s : side) (i : nat) :
  (i < 5)%nat -> exists note, note_for s i = Some note.
Proof.
  intros Hi. unfold note_for.
  destruct (nth_error (finger_notes s) i) eqn:E; [eauto|].
  apply nth_error_None in E. destruct s; simpl in E; lia.
Qed.

Lemma note_for_of_side (s : side) (i : nat) (note : string) :
  note_for s i = Some note ->
  mem note (hand_notes s) = true /\ mem note (hand_notes (other s)) = false.
Proof.
  intros H. pose proof (note_for_lt _ _ _ H) as Hi.
  destruct s; do 5 (destruct i as [|i]; [injection H as <-; split; reflexivity|]); lia.
Qed.

Lemma note_ons_app note a b : note_ons note (a ++ b) = (note_ons note a + note_ons note b)%nat.
Proof. unfold note_ons. now rewrite filter_app, length_app. Qed.

Lemma note_offs_app note a b : note_offs note (a ++ b) = (note_offs note a + note_offs note b)%nat.
Proof. unfold note_offs. now rewrite filter_app, length_app. Qed.

Lemma chords_app a b : chords (a ++ b) = (chords a + chords b)%nat.
Proof. unfold chords. now rewrite filter_app, length_app. Qed.

Lemma note_edges_app a b : note_edges (a ++ b) = (note_edges a + note_edges b)%nat.
Proof. unfold note_edges. now rewrite filter_app, length_app. Qed.

Lemma finger_edge_log s previous idx finger_up keys keys' evs :
  finger_edge s previous idx finger_up keys = Some (keys', evs) ->
  evs = edge_of s previous idx finger_up.
Proof.
  unfold finger_edge, edge_of. intros H.
  destruct (finger_up =? 1) eqn:E1; [|destruct (finger_up =? 0) eqn:E0].
  - destruct (nth_error previous idx) as [p|] eqn:Ep; [|discriminate H].
    rewrite (nth_error_nth _ _ 2 Ep). simpl.
    destruct (p =? 0) eqn:Ez.
    + destruct (note_for s idx); [|discriminate H]. now injection H as _ <-.
    + injection H as _ <-.
      assert ((finger_up =? 0) = false) as -> by lia.
      now destruct (note_for s idx).
  - destruct (nth_error previous idx) as [p|] eqn:Ep; [|discriminate H].
    rewrite (nth_error_nth _ _ 2 Ep). simpl.
    destruct (p =? 1) eqn:Ez.
    + destruct (note_for s idx); [|discriminate H]. now injection H as _ <-.
    + injection H as _ <-. now destruct (note_for s idx).
  - injection H as _ <-. now destruct (note_for s idx).
Qed.

Lemma finger_edge_total s previous idx finger_up keys :
  (idx < length previous)%nat -> (idx < 5)%nat ->
  exists keys', finger_edge s previous idx finger_up keys
                = Some (keys', edge_of s previous idx finger_up).
Proof.
  intros Hp Hi.
  destruct (finger_edge s previous idx finger_up keys) as [[k e]|] eqn:E.
  - exists k. now rewrite (finger_edge_log _ _ _ _ _ _ _ E).
  - exfalso. unfold finger_edge in E.
    destruct (nth_error previous idx) as [p|] eqn:Ep;
      [|apply nth_error_None in Ep; lia].
    destruct (note_for_some s idx Hi) as [note Hn]. rewrite Hn in E.
    destruct (finger_up =? 1); [destruct (p =? 0); discriminate E|].
    destruct (finger_up =? 0); [destruct (p =? 1); discriminate E|discriminate E].
Qed.

Lemma finger_loop_log s previous fingers :
  forall idx keys keys' evs,
    finger_loop s previous idx fingers keys = Some (keys', evs) ->
    evs = edges_from s previous idx fingers.
Proof.
  induction fingers as [|f rest IH]; intros idx keys keys' evs H; simpl in *.
  - now injection H as _ <-.
  - destruct (finger_edge s previous idx f keys) as [[k1 e1]|] eqn:E1; [|discriminate H].
    destruct (finger_loop s previous (S idx) rest k1) as [[k2 e2]|] eqn:E2; [|discriminate H].
    injection H as _ <-.
    now rewrite (finger_edge_log _ _ _ _ _ _ _ E1), (IH _ _ _ _ E2).
Qed.

Lemma finger_loop_total s previous fingers :
  forall idx keys,
    (idx + length fingers <= length previous)%nat ->
    (idx + length fingers <= 5)%nat ->
    exists keys', finger_loop s previous idx fingers keys
                  = Some (keys', edges_from s previous idx fingers).
Proof.
  induction fingers as [|f rest IH]; intros idx keys Hp Hn; simpl in *.
  - eauto.
  - destruct (finger_edge_total s previous idx f keys) as [k1 E1]; [lia|lia|].
    rewrite E1.
    destruct (IH (S idx) k1) as [k2 E2]; [lia|lia|].
    rewrite E2. eauto.
Qed.

Lemma edge_of_ons s previous idx finger_up i note :
  note_for s i = Some note ->
  note_ons note (edge_of s previous idx finger_up)
  = if ((idx =? i)%nat && (finger_up =? 1) && (nth idx previous 2 =? 0))%bool
    then 1%nat else 0%nat.
Proof.
  intros Hn. unfold edge_of.
  destruct (Nat.eqb_spec idx i) as [->|Hne]; simpl.
  - rewrite Hn. unfold note_ons.
    destruct (finger_up =? 1) eqn:E1; destruct (finger_up =? 0) eqn:E0;
      destruct (nth i previous 2 =? 0) eqn:P0; destruct (nth i previous 2 =? 1) eqn:P1;
      simpl; rewrite ?String.eqb_refl; reflexivity.
  - destruct (note_for s idx) as [n'|] eqn:En; [|reflexivity].
    assert (Hs : String.eqb n' note = false).
    { apply String.eqb_neq. intros ->. apply Hne. eapply note_for_inj; eassumption. }
    unfold note_ons.
    destruct (finger_up =? 1); destruct (finger_up =? 0);
      destruct (nth idx previous 2 =? 0); destruct (nth idx previous 2 =? 1);
      simpl; rewrite ?Hs; reflexivity.
Qed.

Lemma edge_of_offs s previous idx finger_up i note :
  note_for s i = Some note ->
  note_offs note (edge_of s previous idx finger_up)
  = if ((idx =? i)%nat && (finger_up =? 0) && (nth idx previous 2 =? 1))%bool
    then 1%nat else 0%nat.
Proof.
  intros Hn. unfold edge_of.
  destruct (Nat.eqb_spec idx i) as [->|Hne]; simpl.
  - rewrite Hn. unfold note_offs.
    destruct (finger_up =? 1) eqn:E1; destruct (finger_up =? 0) eqn:E0;
      try (exfalso; lia);
      destruct (nth i previous 2 =? 0) eqn:P0; destruct (nth i previous 2 =? 1) eqn:P1;
      simpl; rewrite ?String.eqb_refl; reflexivity.
  - destruct (note_for s idx) as [n'|] eqn:En; [|reflexivity].
    assert (Hs : String.eqb n' note = false).
    { apply String.eqb_neq. intros ->. apply Hne. eapply note_for_inj; eassumption. }
    unfold note_offs.
    destruct (finger_up =? 1); destruct (finger_up =? 0);
      destruct (nth idx previous 2 =? 0); destruct (nth idx previous 2 =? 1);
      simpl; rewrite ?Hs; reflexivity.
Qed.

Lemma nth_middle_app (pre : list Z) (f : Z) (rest : list Z) :
  nth (length pre) (pre ++ f :: rest) 2 = f.
Proof. rewrite app_nth2 by lia. now rewrite Nat.sub_diag. Qed.

Section EdgeCounts.

Variables (s : side) (previous : list Z).

Lemma edges_from_ons (fingers : list Z) :
  forall pre i note,
    note_for s i = Some note ->
    note_ons note (edges_from s previous (length pre) fingers)
    = if ((length pre <=? i)%nat && (nth i (pre ++ fingers) 2 =? 1)
          && (nth i previous 2 =? 0))%bool
      then 1%nat else 0%nat.
Proof.
  induction fingers as [|f rest IH]; intros pre i note Hn; simpl.
  - rewrite app_nil_r.
    destruct (Nat.leb_spec (length pre) i) as [Hle|Hlt]; simpl; [|reflexivity].
    rewrite nth_overflow by lia. reflexivity.
  - rewrite note_ons_app, (edge_of_ons _ _ _ _ _ _ Hn).
    specialize (IH (pre ++ [f]) i note Hn).
    rewrite length_app, <- app_assoc in IH. simpl in IH.
    replace (length pre + 1)%nat with (S (length pre)) in IH by lia.
    rewrite IH.
    destruct (Nat.eqb_spec (length pre) i) as [<-|Hne].
    + rewrite nth_middle_app, Nat.leb_refl.
      assert ((S (length pre) <=? length pre)%nat = false) as -> by (apply Nat.leb_gt; lia).
      simpl. now rewrite Nat.add_0_r.
    + cbn [andb Nat.add].
      assert ((S (length pre) <=? i)%nat = (length pre <=? i)%nat) as ->; [|reflexivity].
      destruct (Nat.leb_spec (length pre) i); [apply Nat.leb_le|apply Nat.leb_gt]; lia.
Qed.

Lemma edges_from_offs (fingers : list Z) :
  forall pre i note,
    note_for s i = Some note ->
    note_offs note (edges_from s previous (length pre) fingers)
    = if ((length pre <=? i)%nat && (nth i (pre ++ fingers) 2 =? 0)
          && (nth i previous 2 =? 1))%bool
      then 1%nat else 0%nat.
Proof.
  induction fingers as [|f rest IH]; intros pre i note Hn; simpl.
  - rewrite app_nil_r.
    destruct (Nat.leb_spec (length pre) i) as [Hle|Hlt]; simpl; [|reflexivity].
    rewrite nth_overflow by lia. reflexivity.
  - rewrite note_offs_app, (edge_of_offs _ _ _ _ _ _ Hn).
    specialize (IH (pre ++ [f]) i note Hn).
    rewrite length_app, <- app_assoc in IH. simpl in IH.
    replace (length pre + 1)%nat with (S (length pre)) in IH by lia.
    rewrite IH.
    destruct (Nat.eqb_spec (length pre) i) as [<-|Hne].
    + rewrite nth_middle_app, Nat.leb_refl.
      assert ((S (length pre) <=? length pre)%nat = false) as -> by (apply Nat.leb_gt; lia).
      simpl. now rewrite Nat.add_0_r.
    + cbn [andb Nat.add].
      assert ((S (length pre) <=? i)%nat = (length pre <=? i)%nat) as ->; [|reflexivity].
      destruct (Nat.leb_spec (length pre) i); [apply Nat.leb_le|apply Nat.leb_gt]; lia.
Qed.

Lemma edge_of_shape (idx : nat) (f : Z) :
  chords (edge_of s previous idx f) = 0%nat
  /\ forallb (of_side s) (edge_of s previous idx f) = true
  /\ forallb (fun e => negb (of_side (other s) e)) (edge_of s previous idx f) = true.
Proof.
  unfold edge_of.
  destruct (note_for s idx) as [note|] eqn:En; [|repeat split].
  destruct (note_for_of_side _ _ _ En) as [Hin Hout].
  destruct ((f =? 1) && (nth idx previous 2 =? 0))%bool;
    [simpl; rewrite Hin, Hout; repeat split|].
  destruct ((f =? 0) && (nth idx previous 2 =? 1))%bool;
    [simpl; rewrite Hin, Hout; repeat split|repeat split].
Qed.

Lemma edges_from_shape (fingers : list Z) :
  forall idx,
    chords (edges_from s previous idx fingers) = 0%nat
    /\ forallb (of_side s) (edges_from s previous idx fingers) = true
    /\ forallb (fun e => negb (of_side (other s) e))
               (edges_from s previous idx fingers) = true.
Proof.
  induction fingers as [|f rest IH]; intros idx; simpl; [repeat split|].
  destruct (edge_of_shape idx f) as (Hc & Hs & Ho).
  destruct (IH (S idx)) as (Hc' & Hs' & Ho').
  rewrite chords_app, !forallb_app, Hc, Hc', Hs, Hs', Ho, Ho'. repeat split.
Qed.

End EdgeCounts.

(** A finger list diffed against itself has no edge. *)
Lemma edges_from_same (s : side) (fingers : list Z) :
  forall pre, edges_from s (pre ++ fingers) (length pre) fingers = [].
Proof.
  induction fingers as [|f rest IH]; intros pre; simpl; [reflexivity|].
  specialize (IH (pre ++ [f])). rewrite <- app_assoc, length_app in IH. simpl in IH.
  replace (length pre + 1)%nat with (S (length pre)) in IH by lia.
  rewrite IH, app_nil_r. unfold edge_of.
  rewrite nth_middle_app.
  destruct (note_for s (length pre)); [|reflexivity].
  destruct (f =? 1) eqn:E1; destruct (f =? 0) eqn:E0; try reflexivity.
  exfalso; lia.
Qed.

(** ** The branch of one hand *)

Lemma store_fields s fingers fist keys chord_time st :
  previous_fingers s (store s fingers fist keys chord_time st) = fingers
  /\ last_fist s (store s fingers fist keys chord_time st) = fist
  /\ piano_keys s (store s fingers fist keys chord_time st) = keys
  /\ last_chord_time (store s fingers fist keys chord_time st) = chord_time
  /\ previous_fingers (other s) (store s fingers fist keys chord_time st)
     = previous_fingers (other s) st
  /\ last_fist (other s) (store s fingers fist keys chord_time st) = last_fist (other s) st
  /\ piano_keys (other s) (store s fingers fist keys chord_time st)
     = piano_keys (other s) st.
Proof. destruct s; repeat split. Qed.

(** Everything one run of the branch does, read off its result. *)
Lemma process_side_result st s fingers now st' evs :
  process_side st s fingers now = Some (st', evs) ->
  evs = edges_from s (previous_fingers s st) 0 fingers
        ++ (if chord_due st s (is_fist fingers) now then [Chord (hand_notes s)] else [])
  /\ previous_fingers s st' = fingers
  /\ last_fist s st' = is_fist fingers
  /\ last_chord_time st'
     = (if chord_due st s (is_fist fingers) now then now else last_chord_time st)
  /\ previous_fingers (other s) st' = previous_fingers (other s) st
  /\ last_fist (other s) st' = last_fist (other s) st
  /\ piano_keys (other s) st' = piano_keys (other s) st.
Proof.
  unfold process_side. intros H.
  destruct (finger_loop s (previous_fingers s st) 0 fingers (piano_keys s st))
    as [[keys1 notes]|] eqn:E; [|discriminate H].
  apply finger_loop_log in E. subst notes.
  injection H as <- <-.
  match goal with
  | |- context [store s fingers ?f ?k ?c st] =>
      destruct (store_fields s fingers f k c st) as (H1 & H2 & _ & H4 & H5 & H6 & H7)
  end.
  rewrite H1, H2, H4, H5, H6, H7. repeat split.
Qed.

Lemma process_side_total st s fingers now :
  length fingers = 5%nat -> length (previous_fingers s st) = 5%nat ->
  exists st', process_side st s fingers now
              = Some (st', edges_from s (previous_fingers s st) 0 fingers
                           ++ (if chord_due st s (is_fist fingers) now
                               then [Chord (hand_notes s)] else [])).
Proof.
  intros Hf Hp. unfold process_side.
  destruct (finger_loop_total s (previous_fingers s st) fingers 0 (piano_keys s st))
    as [keys1 E]; [simpl; lia|simpl; lia|].
  rewrite E. eauto.
Qed.

Lemma chord_due_elapsed st s fist now :
  chord_due st s fist now = true ->
  (1 < now - last_chord_time st)%Q /\ fist = true /\ last_fist s st = false.
Proof.
  unfold chord_due, cooldown_elapsed, chord_cooldown. intros H.
  apply andb_prop in H as [H Ht]. apply andb_prop in H as [Hf Hl].
  repeat split; [|assumption|now destruct (last_fist s st)].
  apply Qnot_le_lt. intros Hle. apply Qle_bool_iff in Hle.
  rewrite Hle in Ht. discriminate Ht.
Qed.

Lemma chord_due_within st s fist now :
  (now - last_chord_time st <= 1)%Q -> chord_due st s fist now = false.
Proof.
  intros Hle. unfold chord_due, cooldown_elapsed, chord_cooldown.
  apply Qle_bool_iff in Hle. rewrite Hle. simpl. now rewrite andb_false_r.
Qed.

Lemma chord_due_edge st s now :
  last_fist s st = false -> (1 < now - last_chord_time st)%Q ->
  chord_due st s true now = true.
Proof.
  intros Hl Ht. unfold chord_due, cooldown_elapsed, chord_cooldown.
  rewrite Hl. simpl.
  destruct (Qle_bool (now - last_chord_time st) 1) eqn:E; [|reflexivity].
  apply Qle_bool_iff in E. exfalso. apply (Qlt_not_le _ _ Ht E).
Qed.

(** The chords of one run of the branch: none or one, and the timer moves
    with it. *)
Lemma process_side_chords st s fingers now st' evs :
  process_side st s fingers now = Some (st', evs) ->
  (chords evs = 0%nat /\ last_chord_time st' = last_chord_time st
   /\ chord_due st s (is_fist fingers) now = false)
  \/ (chords evs = 1%nat /\ last_chord_time st' = now
      /\ chord_due st s (is_fist fingers) now = true).
Proof.
  intros H. apply process_side_result in H as (-> & _ & _ & Ht & _).
  destruct (edges_from_shape s (previous_fingers s st) fingers 0) as (Hc & _).
  rewrite chords_app, Hc, Ht.
  destruct (chord_due st s (is_fist fingers) now); [right|left]; repeat split.
Qed.

Lemma process_side_wf st s fingers now st' evs :
  wf_state st -> length fingers = 5%nat ->
  process_side st s fingers now = Some (st', evs) -> wf_state st'.
Proof.
  intros [Hr Hl] Hf H.
  apply process_side_result in H as (_ & Hs & _ & _ & Ho & _).
  unfold wf_state. destruct s; simpl in *; rewrite Hs, Ho; auto.
Qed.

(** ** The extractor always answers with five flags *)

Lemma fingers_up_length landmark_list hand_type fingers :
  fingers_up landmark_list hand_type = Some fingers -> length fingers = 5%nat.
Proof.
  unfold fingers_up. destruct landmark_list as [|l0 ll]; [now intros [= <-]|].
  destruct (thumb_up (l0 :: ll) hand_type); [|discriminate].
  simpl.
  repeat match goal with
         | |- context [finger_up ?l ?i] => destruct (finger_up l i); [|discriminate]
         end.
  now intros [= <-].
Qed.

Lemma enumerate_length pts : forall id, length (enumerate_landmarks id pts) = length pts.
Proof.
  induction pts as [|[x y] rest IH]; intros id; simpl; [reflexivity|].
  now rewrite IH.
Qed.

Lemma fingers_up_total landmark_list hand_type :
  length landmark_list = 21%nat ->
  exists fingers, fingers_up landmark_list hand_type = Some fingers.
Proof.
  intros Hlen.
  do 21 (destruct landmark_list as [|? landmark_list]; [discriminate Hlen|]).
  unfold fingers_up, thumb_up. simpl.
  destruct (String.eqb hand_type "Right"); eauto.
Qed.

(** ** One round of the loop over the hands *)

Lemma find_positions_cases r i landmark_list hand_type :
  find_positions r i = Some (landmark_list, hand_type) ->
  (landmark_list = [] /\ hand_type = None)
  \/ exists pts, nth_error (multi_hand_landmarks r) i = Some pts
                 /\ landmark_list = enumerate_landmarks 0 pts
                 /\ (hand_type = None
                     \/ exists label, hand_type = Some label /\ label_at r i = Some label).
Proof.
  unfold find_positions, label_at. intros H.
  destruct (multi_hand_landmarks r) as [|h0 hs] eqn:Eh; [left; now injection H as <- <-|].
  destruct (i <? length (h0 :: hs))%nat; [|left; now injection H as <- <-].
  destruct (multi_handedness r) as [|l0 ls] eqn:El.
  - destruct (nth_error (h0 :: hs) i) as [pts|] eqn:Ep; [|discriminate H].
    injection H as <- <-. right. exists pts. auto.
  - destruct (nth_error (l0 :: ls) i) as [label|] eqn:Elab; [|discriminate H].
    destruct (nth_error (h0 :: hs) i) as [pts|] eqn:Ep; [|discriminate H].
    injection H as <- <-. right. exists pts. repeat split. right. eauto.
Qed.

Lemma side_label_eqb label :
  (String.eqb label "Right" = true -> label = side_label Right)
  /\ (String.eqb label "Left" = true -> label = side_label Left).
Proof. split; intros H; now apply String.eqb_eq in H. Qed.

(** A round either leaves everything as it is, or runs the branch of the side
    named by the label of its hand on the fingers extracted from that hand. *)
Lemma process_hand_cases st r clock i st' evs :
  process_hand st r clock i = Some (st', evs) ->
  (st' = st /\ evs = [])
  \/ exists s pts fingers,
       nth_error (multi_hand_landmarks r) i = Some pts
       /\ label_at r i = Some (side_label s)
       /\ fingers_up (enumerate_landmarks 0 pts) (side_label s) = Some fingers
       /\ process_side st s fingers (clock i) = Some (st', evs).
Proof.
  unfold process_hand. intros H.
  destruct (find_positions r i) as [[ll ht]|] eqn:Ef; [|discriminate H].
  destruct ll as [|l0 ll]; [left; now injection H as <- <-|].
  destruct ht as [label|]; [|left; now injection H as <- <-].
  destruct (truthy (Some label)); [|left; now injection H as <- <-].
  destruct (fingers_up (l0 :: ll) label) as [fingers|] eqn:Eu; [|discriminate H].
  apply find_positions_cases in Ef as [[Hnil _]|(pts & Hp & Hll & Hlab)];
    [discriminate Hnil|].
  destruct Hlab as [Hnone|(label' & [= <-] & Hlab)]; [discriminate Hnone|].
  destruct (side_label_eqb label) as [HR HL].
  destruct (String.eqb label "Right") eqn:ER.
  - right. exists Right, pts, fingers. rewrite <- (HR eq_refl), <- Hll. auto.
  - destruct (String.eqb label "Left") eqn:EL.
    + right. exists Left, pts, fingers. rewrite <- (HL eq_refl), <- Hll. auto.
    + left. now injection H as <- <-.
Qed.

(** A hand with points and the label of a side is handed to that side's
    branch. *)
Lemma process_hand_seen st r clock i s pts :
  nth_error (multi_hand_landmarks r) i = Some pts ->
  pts <> [] ->
  label_at r i = Some (side_label s) ->
  process_hand st r clock i
  = (fingers <- fingers_up (enumerate_landmarks 0 pts) (side_label s) ;;
     process_side st s fingers (clock i)).
Proof.
  intros Hp Hne Hl. unfold process_hand, find_positions. unfold label_at in Hl.
  assert (Hi : (i < length (multi_hand_landmarks r))%nat)
    by (apply nth_error_Some; rewrite Hp; discriminate).
  destruct (multi_hand_landmarks r) as [|h0 hs] eqn:Eh; [simpl in Hi; lia|].
  apply Nat.ltb_lt in Hi. rewrite Hi.
  destruct (multi_handedness r) as [|l0 ls] eqn:El; [destruct i; discriminate Hl|].
  rewrite Hl, Hp.
  destruct pts as [|[x y] pts]; [now contradiction Hne|]. simpl enumerate_landmarks.
  assert (Ht : truthy (Some (side_label s)) = true) by now destruct s.
  rewrite Ht.
  destruct (fingers_up _ (side_label s)); [|reflexivity].
  destruct s; reflexivity.
Qed.

Lemma process_hand_total st r clock i :
  wf_state st -> wf_hand r i ->
  exists st' evs, process_hand st r clock i = Some (st', evs).
Proof.
  intros Hst [Hlen H21].
  unfold process_hand, find_positions.
  destruct (multi_hand_landmarks r) as [|h0 hs] eqn:Eh; [simpl; eauto|].
  destruct (Nat.ltb_spec i (length (h0 :: hs))) as [Hi|Hi]; [|simpl; eauto].
  destruct (multi_handedness r) as [|l0 ls] eqn:El; [discriminate Hlen|].
  destruct (nth_error (l0 :: ls) i) as [label|] eqn:Elab;
    [|apply nth_error_None in Elab; lia].
  destruct (nth_error (h0 :: hs) i) as [pts|] eqn:Ep;
    [|apply nth_error_None in Ep; lia].
  destruct (enumerate_landmarks 0 pts) as [|p0 ps] eqn:Een; [eauto|].
  destruct (truthy (Some label)); [|eauto].
  destruct (fingers_up_total (p0 :: ps) label) as [fingers Hf].
  { rewrite <- Een, enumerate_length. exact H21. }
  rewrite Hf. pose proof (fingers_up_length _ _ _ Hf) as Hf5.
  destruct Hst as [Hr Hl].
  destruct (String.eqb label "Right").
  - destruct (process_side_total st Right fingers (clock i) Hf5 Hr) as [st' E]. eauto.
  - destruct (String.eqb label "Left"); [|eauto].
    destruct (process_side_total st Left fingers (clock i) Hf5 Hl) as [st' E]. eauto.
Qed.

Lemma process_hand_wf st r clock i st' evs :
  wf_state st -> process_hand st r clock i = Some (st', evs) -> wf_state st'.
Proof.
  intros Hst H.
  apply process_hand_cases in H as [[-> _]|(s & pts & fingers & _ & _ & Hf & Hs)];
    [assumption|].
  eapply process_side_wf; [exact Hst|eapply fingers_up_length; exact Hf|exact Hs].
Qed.

Lemma process_total st r clock :
  wf_state st -> wf_results r ->
  exists st' evs, process st r clock = Some (st', evs).
Proof.
  intros Hst [H0 H1]. unfold process.
  destruct (process_hand_total st r clock 0 Hst H0) as (st1 & ev0 & E0).
  rewrite E0.
  destruct (process_hand_total st1 r clock 1) as (st2 & ev1 & E1);
    [eapply process_hand_wf; eassumption|assumption|].
  rewrite E1. eauto.
Qed.

Lemma process_wf st r clock st' evs :
  wf_state st -> process st r clock = Some (st', evs) -> wf_state st'.
Proof.
  unfold process. intros Hst H.
  destruct (process_hand st r clock 0) as [[st1 ev0]|] eqn:E0; [|discriminate H].
  destruct (process_hand st1 r clock 1) as [[st2 ev1]|] eqn:E1; [|discriminate H].
  injection H as <- _.
  eapply process_hand_wf; [|exact E1]. eapply process_hand_wf; eassumption.
Qed.

Lemma init_wf : wf_state init.
Proof. split; reflexivity. Qed.

(** ** Sides without a hand in the frame *)

Lemma other_of_ne a b : a <> b -> a = other b.
Proof. destruct a, b; intros H; try reflexivity; now contradiction H. Qed.

Lemma chord_not_of_other s : of_side (other s) (Chord (hand_notes s)) = false.
Proof. destruct s; reflexivity. Qed.

(** The branch of a side leaves the other side alone and names none of its
    notes. *)
Lemma process_side_other st s fingers now st' evs :
  process_side st s fingers now = Some (st', evs) ->
  previous_fingers (other s) st' = previous_fingers (other s) st
  /\ last_fist (other s) st' = last_fist (other s) st
  /\ piano_keys (other s) st' = piano_keys (other s) st
  /\ forallb (fun e => negb (of_side (other s) e)) evs = true.
Proof.
  intros H. apply process_side_result in H as (-> & _ & _ & _ & Hp & Hf & Hk).
  repeat split; try assumption.
  destruct (edges_from_shape s (previous_fingers s st) fingers 0) as (_ & _ & Ho).
  rewrite forallb_app, Ho.
  destruct (chord_due st s (is_fist fingers) now); [|reflexivity].
  cbn [forallb]. now rewrite chord_not_of_other.
Qed.

Lemma process_hand_unseen st r clock i s st' evs :
  label_at r i <> Some (side_label s) ->
  process_hand st r clock i = Some (st', evs) ->
  previous_fingers s st' = previous_fingers s st
  /\ last_fist s st' = last_fist s st
  /\ piano_keys s st' = piano_keys s st
  /\ forallb (fun e => negb (of_side s e)) evs = true.
Proof.
  intros Hl H.
  apply process_hand_cases in H as [[-> ->]|(s' & pts & fingers & _ & Hs' & _ & Hp)];
    [repeat split|].
  assert (Hne : s <> s') by (intros ->; now apply Hl).
  rewrite (other_of_ne _ _ Hne). eapply process_side_other. exact Hp.
Qed.

(** C7. A side whose label no handled hand of the frame carries (no hand at
    all, or hands labelled otherwise) keeps its stored fingers, its fist flag
    and its keys, and the frame emits no event that names one of its notes. *)
Theorem unseen_side_untouched st r clock s :
  wf_state st -> wf_results r -> unseen s r ->
  exists st' evs,
    process st r clock = Some (st', evs)
    /\ previous_fingers s st' = previous_fingers s st
    /\ last_fist s st' = last_fist s st
    /\ piano_keys s st' = piano_keys s st
    /\ forallb (fun e => negb (of_side s e)) evs = true.
Proof.
  intros Hst Hr [Hu0 Hu1].
  destruct (process_total st r clock Hst Hr) as (st' & evs & E).
  exists st', evs. split; [exact E|].
  unfold process in E.
  destruct (process_hand st r clock 0) as [[st1 ev0]|] eqn:E0; [|discriminate E].
  destruct (process_hand st1 r clock 1) as [[st2 ev1]|] eqn:E1; [|discriminate E].
  injection E as <- <-.
  destruct (process_hand_unseen _ _ _ _ _ _ _ Hu0 E0) as (Hp0 & Hf0 & Hk0 & He0).
  destruct (process_hand_unseen _ _ _ _ _ _ _ Hu1 E1) as (Hp1 & Hf1 & Hk1 & He1).
  rewrite Hp1, Hf1, Hk1, Hp0, Hf0, Hk0, forallb_app, He0, He1. repeat split.
Qed.

(** ** The chord timer *)

Lemma process_hand_chords st r clock i st' evs :
  process_hand st r clock i = Some (st', evs) ->
  (chords evs = 0%nat /\ last_chord_time st' = last_chord_time st)
  \/ (chords evs = 1%nat /\ last_chord_time st' = clock i
      /\ (1 < clock i - last_chord_time st)%Q).
Proof.
  intros H.
  apply process_hand_cases in H as [[-> ->]|(s & pts & fingers & _ & _ & _ & Hp)];
    [left; split; reflexivity|].
  apply process_side_chords in Hp as [(Hc & Ht & _)|(Hc & Ht & Hd)]; [left; auto|].
  right. repeat split; try assumption.
  now apply chord_due_elapsed in Hd as (Hd & _).
Qed.

(** The chords of a frame: none, and the timer stays; or some, and the timer
    is the clock reading of a hand of the frame, more than the cooldown past
    its old value. Two chords need readings more than the cooldown apart. *)
Lemma process_chords st r clock st' evs :
  process st r clock = Some (st', evs) ->
  (chords evs = 0%nat /\ last_chord_time st' = last_chord_time st)
  \/ ((chords evs = 1%nat \/ (chords evs = 2%nat /\ (1 < clock 1%nat - clock 0%nat)%Q))
      /\ (last_chord_time st' = clock 0%nat \/ last_chord_time st' = clock 1%nat)
      /\ (1 < last_chord_time st' - last_chord_time st)%Q).
Proof.
  unfold process. intros E.
  destruct (process_hand st r clock 0) as [[st1 ev0]|] eqn:E0; [|discriminate E].
  destruct (process_hand st1 r clock 1) as [[st2 ev1]|] eqn:E1; [|discriminate E].
  injection E as <- <-. rewrite chords_app.
  apply process_hand_chords in E0 as [(Hc0 & Ht0)|(Hc0 & Ht0 & Hlt0)];
    apply process_hand_chords in E1 as [(Hc1 & Ht1)|(Hc1 & Ht1 & Hlt1)];
    rewrite Hc0, Hc1, Ht1.
  - left. rewrite Ht0. split; reflexivity.
  - right. rewrite Ht0 in Hlt1. split; [now left|]. split; [now right|exact Hlt1].
  - right. rewrite Ht0. split; [now left|]. split; [now left|exact Hlt0].
  - right. rewrite Ht0 in Hlt1. split; [right; split; [reflexivity|exact Hlt1]|].
    split; [now right|lra].
Qed.

(** C10. [last_chord_time] moves in a frame exactly when the frame emits a
    Chord, and then to the timestamp at which the Chord was emitted (a clock
    reading of the frame): without a Chord, so also when a closing fist is
    held back by the cooldown, it keeps its value; with a Chord it is a
    reading of the frame's clock, a value different from the old one. *)
Theorem timer_moves_with_chord st r clock :
  wf_state st -> wf_results r ->
  exists st' evs,
    process st r clock = Some (st', evs)
    /\ (chords evs = 0%nat -> last_chord_time st' = last_chord_time st)
    /\ (chords evs <> 0%nat ->
        (last_chord_time st' = clock 0%nat \/ last_chord_time st' = clock 1%nat)
        /\ ~ (last_chord_time st' == last_chord_time st)%Q).
Proof.
  intros Hst Hr.
  destruct (process_total st r clock Hst Hr) as (st' & evs & E).
  exists st', evs. split; [exact E|].
  apply process_chords in E as [(Hc & Ht)|(Hc & Ht & Hlt)].
  - split; [intros _; exact Ht|intros Hne; now contradiction Hne].
  - split; [intros H0; rewrite H0 in Hc; destruct Hc as [Hc|[Hc _]]; discriminate Hc|].
    intros _. split; [exact Ht|]. intros Heq. rewrite Heq in Hlt. lra.
Qed.

Lemma unseen_side_untouched_witness :
  let r := Hands.one Right (Hands.open_hand Right) in
  wf_state init /\ wf_results r /\ unseen Left r
  /\ exists st' evs,
       process init r (fun _ => 0%Q) = Some (st', evs)
       /\ previous_fingers Left st' = previous_fingers Left init
       /\ last_fist Left st' = last_fist Left init
       /\ piano_keys Left st' = piano_keys Left init
       /\ forallb (fun e => negb (of_side Left e)) evs = true.
Proof.
  assert (Hst : wf_state init) by (split; reflexivity).
  assert (Hr : wf_results (Hands.one Right (Hands.open_hand Right)))
    by (repeat split; reflexivity).
  assert (Hu : unseen Left (Hands.one Right (Hands.open_hand Right)))
    by (split; discriminate).
  repeat split; try reflexivity; try discriminate.
  exact (unseen_side_untouched init (Hands.one Right (Hands.open_hand Right))
                               (fun _ => 0%Q) Left Hst Hr Hu).
Defined.

Lemma timer_moves_with_chord_witness :
  let r := Hands.one Right (Hands.closed_hand Right) in
  let clock := fun _ : nat => 2%Q in
  wf_state init /\ wf_results r
  /\ exists st' evs,
       process init r clock = Some (st', evs)
       /\ (chords evs = 0%nat -> last_chord_time st' = last_chord_time init)
       /\ (chords evs <> 0%nat ->
           (last_chord_time st' = clock 0%nat \/ last_chord_time st' = clock 1%nat)
           /\ ~ (last_chord_time st' == last_chord_time init)%Q).
Proof.
  assert (Hst : wf_state init) by (split; reflexivity).
  assert (Hr : wf_results (Hands.one Right (Hands.closed_hand Right)))
    by (repeat split; reflexivity).
  split; [exact Hst|]. split; [exact Hr|].
  exact (timer_moves_with_chord init (Hands.one Right (Hands.closed_hand Right))
                                (fun _ => 2%Q) Hst Hr).
Defined.

(** ** Rounds of the loop, seen from the frame *)

Lemma process_hand_observed st r clock i :
  process_hand st r clock i
  = (o <- observed r i ;;
     match o with
     | None => Some (st, [])
     | Some (s, fingers) => process_side st s fingers (clock i)
     end).
Proof.
  unfold process_hand, observed.
  destruct (find_positions r i) as [[ll ht]|]; [|reflexivity].
  destruct ll as [|l0 ll]; [reflexivity|].
  destruct ht as [label|]; [|reflexivity].
  destruct (truthy (Some label)); [|reflexivity].
  destruct (fingers_up (l0 :: ll) label); [|reflexivity].
  destruct (String.eqb label "Right"); [reflexivity|].
  destruct (String.eqb label "Left"); reflexivity.
Qed.

Lemma observed_side r i s fingers :
  observed r i = Some (Some (s, fingers)) ->
  label_at r i = Some (side_label s) /\ length fingers = 5%nat.
Proof.
  unfold observed. intros H.
  destruct (find_positions r i) as [[ll ht]|] eqn:Ef; [|discriminate H].
  destruct ll as [|l0 ll]; [discriminate H|].
  destruct ht as [label|]; [|discriminate H].
  destruct (truthy (Some label)); [|discriminate H].
  destruct (fingers_up (l0 :: ll) label) as [f|] eqn:Eu; [|discriminate H].
  apply find_positions_cases in Ef as [[Hnil _]|(pts & _ & _ & Hlab)];
    [discriminate Hnil|].
  destruct Hlab as [Hnone|(label' & [= <-] & Hlab)]; [discriminate Hnone|].
  apply fingers_up_length in Eu.
  destruct (String.eqb label "Right") eqn:ER.
  - injection H as <- <-. apply String.eqb_eq in ER. subst label. auto.
  - destruct (String.eqb label "Left") eqn:EL; [|discriminate H].
    injection H as <- <-. apply String.eqb_eq in EL. subst label. auto.
Qed.

(** ** Fingers that did not move *)

Lemma process_side_same st s fingers now st' evs :
  previous_fingers s st = fingers ->
  process_side st s fingers now = Some (st', evs) ->
  note_edges evs = 0%nat.
Proof.
  intros Hp H. apply process_side_result in H as (-> & _).
  rewrite Hp. pose proof (edges_from_same s fingers []) as Hs. simpl in Hs. rewrite Hs.
  destruct (chord_due st s (is_fist fingers) now); reflexivity.
Qed.

Lemma process_side_own st s fingers now st' evs :
  process_side st s fingers now = Some (st', evs) ->
  previous_fingers s st' = fingers.
Proof. intros H. now apply process_side_result in H as (_ & Hp & _). Qed.

Lemma other_involutive s : other (other s) = s.
Proof. now destruct s. Qed.

Lemma process_side_keeps st s s' fingers now st' evs :
  s' <> s ->
  process_side st s fingers now = Some (st', evs) ->
  previous_fingers s' st' = previous_fingers s' st.
Proof.
  intros Hne H. rewrite (other_of_ne _ _ Hne).
  now apply process_side_other in H as (Hp & _).
Qed.

Lemma run_sides_cons st s fingers now rest st' evs :
  run_sides st ((s, fingers, now) :: rest) = Some (st', evs) ->
  exists st1 ev1 ev2,
    process_side st s fingers now = Some (st1, ev1)
    /\ run_sides st1 rest = Some (st', ev2)
    /\ evs = ev1 ++ ev2.
Proof.
  simpl. intros H.
  destruct (process_side st s fingers now) as [[st1 ev1]|]; [|discriminate H].
  destruct (run_sides st1 rest) as [[st2 ev2]|] eqn:E; [|discriminate H].
  injection H as <- <-. exists st1, ev1, ev2. repeat split. exact E.
Qed.

Lemma run_sides_nil st st' evs :
  run_sides st [] = Some (st', evs) -> st' = st /\ evs = [].
Proof. simpl. now intros [= <- <-]. Qed.

(** A frame is the trace of its handled hands. *)
Lemma process_as_steps st r clock :
  process st r clock = (tr <- steps r clock ;; run_sides st tr).
Proof.
  unfold process, steps. rewrite process_hand_observed.
  destruct (observed r 0) as [o0|]; [|reflexivity].
  destruct (observed r 1) as [o1|] eqn:O1.
  - destruct o0 as [[s0 f0]|]; destruct o1 as [[s1 f1]|]; simpl.
    + destruct (process_side st s0 f0 (clock 0%nat)) as [[st1 ev0]|]; [|reflexivity].
      rewrite process_hand_observed, O1.
      destruct (process_side st1 s1 f1 (clock 1%nat)) as [[st2 ev1]|]; [|reflexivity].
      now rewrite app_nil_r.
    + destruct (process_side st s0 f0 (clock 0%nat)) as [[st1 ev0]|]; [|reflexivity].
      now rewrite process_hand_observed, O1.
    + rewrite process_hand_observed, O1.
      destruct (process_side st s1 f1 (clock 1%nat)) as [[st2 ev1]|]; [|reflexivity].
      simpl. now rewrite app_nil_r.
    + now rewrite process_hand_observed, O1.
  - destruct o0 as [[s0 f0]|]; simpl.
    + destruct (process_side st s0 f0 (clock 0%nat)) as [[st1 ev0]|]; [|reflexivity].
      now rewrite process_hand_observed, O1.
    + now rewrite process_hand_observed, O1.
Qed.

(** C8, as the code has it. When the hands of the frame show each side at most
    once, a second call with the same frame emits no NoteOn and no NoteOff,
    at the same timestamp as at any other: every side handled by the first
    call has its stored fingers equal to the fingers of the frame. *)
Theorem second_call_no_edges st r clock clock' :
  wf_state st -> wf_results r -> one_per_side r ->
  exists st1 ev1 st2 ev2,
    process st r clock = Some (st1, ev1)
    /\ process st1 r clock' = Some (st2, ev2)
    /\ note_edges ev2 = 0%nat.
Proof.
  intros Hst Hr Hone.
  destruct (process_total st r clock Hst Hr) as (st1 & ev1 & E1).
  pose proof (process_wf _ _ _ _ _ Hst E1) as Hst1.
  destruct (process_total st1 r clock' Hst1 Hr) as (st2 & ev2 & E2).
  exists st1, ev1, st2, ev2. repeat split; try assumption.
  rewrite process_as_steps in E1, E2. unfold steps in E1, E2.
  destruct (observed r 0) as [o0|] eqn:O0; [|discriminate E1].
  destruct (observed r 1) as [o1|] eqn:O1; [|discriminate E1].
  destruct o0 as [[s0 f0]|]; destruct o1 as [[s1 f1]|]; cbn [step_of app] in E1, E2.
  - (* both hands handled: their sides differ *)
    destruct (observed_side _ _ _ _ O0) as [L0 _].
    destruct (observed_side _ _ _ _ O1) as [L1 _].
    assert (Hne : s0 <> s1) by (intros ->; exact (Hone s1 L0 L1)).
    apply run_sides_cons in E1 as (sta & eva & eva' & A0 & E1 & _).
    apply run_sides_cons in E1 as (sta' & eva1 & ? & A1 & E1 & _).
    apply run_sides_nil in E1 as [<- _].
    apply run_sides_cons in E2 as (stb & evb & evb' & F0 & E2 & ->).
    apply run_sides_cons in E2 as (stb' & evb1 & ? & F1 & E2 & ->).
    apply run_sides_nil in E2 as [_ ->].
    rewrite !note_edges_app.
    assert (P0 : previous_fingers s0 st1 = f0).
    { rewrite (process_side_keeps _ _ _ _ _ _ _ Hne A1).
      exact (process_side_own _ _ _ _ _ _ A0). }
    assert (P1 : previous_fingers s1 stb = f1).
    { rewrite (process_side_keeps _ _ _ _ _ _ _ (not_eq_sym Hne) F0).
      exact (process_side_own _ _ _ _ _ _ A1). }
    now rewrite (process_side_same _ _ _ _ _ _ P0 F0), (process_side_same _ _ _ _ _ _ P1 F1).
  - (* only the first hand handled *)
    apply run_sides_cons in E1 as (sta & eva & eva' & A0 & E1 & _).
    apply run_sides_nil in E1 as [<- _].
    apply run_sides_cons in E2 as (stb & evb & evb' & F0 & E2 & ->).
    apply run_sides_nil in E2 as [_ ->].
    rewrite note_edges_app.
    now rewrite (process_side_same _ _ _ _ _ _ (process_side_own _ _ _ _ _ _ A0) F0).
  - (* only the second hand handled *)
    apply run_sides_cons in E1 as (sta & eva & eva' & A1 & E1 & _).
    apply run_sides_nil in E1 as [<- _].
    apply run_sides_cons in E2 as (stb & evb & evb' & F1 & E2 & ->).
    apply run_sides_nil in E2 as [_ ->].
    rewrite note_edges_app.
    now rewrite (process_side_same _ _ _ _ _ _ (process_side_own _ _ _ _ _ _ A1) F1).
  - (* no hand handled *)
    now apply run_sides_nil in E2 as [_ ->].
Qed.

Lemma second_call_no_edges_witness :
  let r := Hands.frame [(Hands.open_hand Right, "Right"%string);
                        (Hands.thumb_only Left, "Left"%string)] in
  wf_state init /\ wf_results r /\ one_per_side r
  /\ exists st1 ev1 st2 ev2,
       process_frame init r 0 = Some (st1, ev1)
       /\ process_frame st1 r 0 = Some (st2, ev2)
       /\ note_edges ev2 = 0%nat.
Proof.
  assert (Hst : wf_state init) by (split; reflexivity).
  assert (Hr : wf_results (Hands.frame [(Hands.open_hand Right, "Right"%string);
                                        (Hands.thumb_only Left, "Left"%string)]))
    by (repeat split; reflexivity).
  assert (Hone : one_per_side (Hands.frame [(Hands.open_hand Right, "Right"%string);
                                            (Hands.thumb_only Left, "Left"%string)]))
    by (intros [|] H; [discriminate|discriminate H]).
  split; [exact Hst|]. split; [exact Hr|]. split; [exact Hone|].
  exact (second_call_no_edges init _ (fun _ => 0%Q) (fun _ => 0%Q) Hst Hr Hone).
Defined.

(** C8, as the specification has it, fails when both hands of the frame carry
    the same label: the first call leaves the fingers of the second hand in
    store, so the second call finds the thumb of the first hand raised again
    and emits a NoteOn and a NoteOff. *)
Lemma second_call_edges_counterexample :
  exists st1 ev1 st2,
    process_frame init Hands.two_right 0 = Some (st1, ev1)
    /\ process_frame st1 Hands.two_right 0
       = Some (st2, [NoteOn "la4"; NoteOff "la4"]).
Proof. do 3 eexists. split; vm_compute; reflexivity. Qed.

(** ** Finger edges *)

Lemma note_counts_of_chord note (c : bool) notes :
  note_ons note (if c then [Chord notes] else []) = 0%nat
  /\ note_offs note (if c then [Chord notes] else []) = 0%nat.
Proof. destruct c; split; reflexivity. Qed.

Lemma foreign_counts s evs note :
  forallb (fun e => negb (of_side s e)) evs = true ->
  mem note (hand_notes s) = true ->
  note_ons note evs = 0%nat /\ note_offs note evs = 0%nat.
Proof.
  intros Hall Hmem. unfold note_ons, note_offs.
  induction evs as [|e rest IH]; [split; reflexivity|].
  simpl in Hall. apply andb_prop in Hall as [He Hrest].
  destruct (IH Hrest) as [IHon IHoff]. apply negb_true_iff in He.
  assert (Hne : forall n, mem n (hand_notes s) = false -> String.eqb n note = false).
  { intros n Hn. apply String.eqb_neq. intros ->. rewrite Hmem in Hn. discriminate Hn. }
  destruct e as [n|n|ns]; simpl in *; rewrite ?(Hne n He); auto.
Qed.

Lemma process_unseen st r clock s st' evs :
  unseen s r ->
  process st r clock = Some (st', evs) ->
  previous_fingers s st' = previous_fingers s st
  /\ forallb (fun e => negb (of_side s e)) evs = true.
Proof.
  intros [Hu0 Hu1] E. unfold process in E.
  destruct (process_hand st r clock 0) as [[st1 ev0]|] eqn:E0; [|discriminate E].
  destruct (process_hand st1 r clock 1) as [[st2 ev1]|] eqn:E1; [|discriminate E].
  injection E as <- <-.
  destruct (process_hand_unseen _ _ _ _ _ _ _ Hu0 E0) as (Hp0 & _ & _ & He0).
  destruct (process_hand_unseen _ _ _ _ _ _ _ Hu1 E1) as (Hp1 & _ & _ & He1).
  now rewrite Hp1, Hp0, forallb_app, He0, He1.
Qed.

(** Frames that do not show a side are handled and leave its stored fingers
    as they were. *)
Lemma run_unseen s :
  forall between st,
    wf_state st ->
    Forall (fun fr => wf_results (fst fr) /\ unseen s (fst fr)) between ->
    exists st' evs,
      run st between = Some (st', evs)
      /\ wf_state st'
      /\ previous_fingers s st' = previous_fingers s st.
Proof.
  induction between as [|[r clock] rest IH]; intros st Hst Hall.
  - exists st, []. split; [reflexivity|]. split; [exact Hst|reflexivity].
  - inversion Hall as [|? ? [Hr Hu] Hrest]; subst. simpl in Hr, Hu.
    destruct (process_total st r clock Hst Hr) as (st1 & ev1 & E1).
    pose proof (process_wf _ _ _ _ _ Hst E1) as Hst1.
    destruct (IH st1 Hst1 Hrest) as (st' & evs & E & Hst' & Hp).
    destruct (process_unseen _ _ _ _ _ _ Hu E1) as [Hp1 _].
    exists st', (ev1 ++ evs). simpl. rewrite E1, E.
    split; [reflexivity|]. split; [exact Hst'|now rewrite Hp, Hp1].
Qed.

Lemma shown_hand r s pts : wf_results r -> View.shows_once r s pts -> length pts = 21%nat.
Proof.
  intros [[_ H0] [_ H1]] [(Hp & _)|(_ & Hp & _)].
  - now rewrite Hp in H0.
  - now rewrite Hp in H1.
Qed.

(** A frame that shows a side once runs the branch of that side once, on the
    fingers of that hand against the stored ones: these fingers are the ones
    stored afterwards, and the NoteOn and NoteOff of the frame for a note of
    the side are those of the loop over the fingers. *)
Lemma process_shows_once st r clock s pts :
  wf_state st -> wf_results r -> View.shows_once r s pts ->
  exists fingers st' evs,
    fingers_up (enumerate_landmarks 0 pts) (side_label s) = Some fingers
    /\ process st r clock = Some (st', evs)
    /\ wf_state st'
    /\ previous_fingers s st' = fingers
    /\ forall i note,
        note_for s i = Some note ->
        note_ons note evs
        = note_ons note (edges_from s (previous_fingers s st) 0 fingers)
        /\ note_offs note evs
           = note_offs note (edges_from s (previous_fingers s st) 0 fingers).
Proof.
  intros Hst Hr Hshow.
  pose proof (shown_hand r s pts Hr Hshow) as H21.
  assert (Hne : pts <> []) by (intros ->; discriminate H21).
  destruct (fingers_up_total (enumerate_landmarks 0 pts) (side_label s))
    as [fingers Hf]; [now rewrite enumerate_length|].
  destruct (process_total st r clock Hst Hr) as (st' & evs & E).
  pose proof (process_wf _ _ _ _ _ Hst E) as Hst'.
  exists fingers, st', evs.
  split; [exact Hf|]. split; [exact E|]. split; [exact Hst'|].
  unfold process in E.
  destruct (process_hand st r clock 0) as [[st1 ev0]|] eqn:E0; [|discriminate E].
  destruct (process_hand st1 r clock 1) as [[st2 ev1]|] eqn:E1; [|discriminate E].
  injection E as <- <-.
  destruct Hshow as [(Hp & Hl & Hu)|(Hu & Hp & Hl)].
  - rewrite (process_hand_seen st r clock 0 s pts Hp Hne Hl), Hf in E0.
    cbv beta iota in E0.
    apply process_side_result in E0 as (-> & Hown & _).
    destruct (process_hand_unseen _ _ _ _ _ _ _ Hu E1) as (Hkeep & _ & _ & Hfor).
    split; [now rewrite Hkeep|].
    intros i note Hn.
    destruct (note_for_of_side s i note Hn) as [Hmem _].
    destruct (foreign_counts s ev1 note Hfor Hmem) as [Hon Hoff].
    destruct (note_counts_of_chord note (chord_due st s (is_fist fingers) (clock 0%nat))
                                   (hand_notes s)) as [Hcon Hcoff].
    rewrite !note_ons_app, !note_offs_app, Hon, Hoff, Hcon, Hcoff. lia.
  - destruct (process_hand_unseen _ _ _ _ _ _ _ Hu E0) as (Hkeep & _ & _ & Hfor).
    rewrite (process_hand_seen st1 r clock 1 s pts Hp Hne Hl), Hf in E1.
    cbv beta iota in E1.
    apply process_side_result in E1 as (-> & Hown & _).
    split; [exact Hown|].
    intros i note Hn.
    destruct (note_for_of_side s i note Hn) as [Hmem _].
    destruct (foreign_counts s ev0 note Hfor Hmem) as [Hon Hoff].
    destruct (note_counts_of_chord note (chord_due st1 s (is_fist fingers) (clock 1%nat))
                                   (hand_notes s)) as [Hcon Hcoff].
    rewrite !note_ons_app, !note_offs_app, Hon, Hoff, Hcon, Hcoff, Hkeep. lia.
Qed.

(** C2, for frames that show the side once. Take two frames that each show a
    side in exactly one of their two handled hands and that follow one another
    for that side (the frames in between do not show it), and a finger [i]
    with its note. Both frames and those in between are handled, and with
    [f1] and [f2] the fingers extracted from the hand of the side in the first
    and in the second frame, the events of the second frame have: exactly one
    NoteOn of the note and no NoteOff if the finger went from 0 to 1; exactly
    one NoteOff and no NoteOn if it went from 1 to 0; neither if it kept its
    value. *)
Theorem finger_transition_frames st r1 clock1 between r2 clock2 s pts1 pts2 i :
  wf_state st -> wf_results r1 -> wf_results r2 ->
  Forall (fun fr => wf_results (fst fr) /\ unseen s (fst fr)) between ->
  View.shows_once r1 s pts1 -> View.shows_once r2 s pts2 ->
  (i < 5)%nat ->
  exists f1 f2 note st1 ev1 st2 evb st3 ev2,
    fingers_up (enumerate_landmarks 0 pts1) (side_label s) = Some f1
    /\ fingers_up (enumerate_landmarks 0 pts2) (side_label s) = Some f2
    /\ note_for s i = Some note
    /\ process st r1 clock1 = Some (st1, ev1)
    /\ run st1 between = Some (st2, evb)
    /\ process st2 r2 clock2 = Some (st3, ev2)
    /\ (nth i f1 0 = 0 -> nth i f2 0 = 1 ->
        note_ons note ev2 = 1%nat /\ note_offs note ev2 = 0%nat)
    /\ (nth i f1 0 = 1 -> nth i f2 0 = 0 ->
        note_offs note ev2 = 1%nat /\ note_ons note ev2 = 0%nat)
    /\ (nth i f1 0 = nth i f2 0 ->
        note_ons note ev2 = 0%nat /\ note_offs note ev2 = 0%nat).
Proof.
  intros Hst Hr1 Hr2 Hbetween Hs1 Hs2 Hi.
  destruct (note_for_some s i Hi) as [note Hn].
  destruct (process_shows_once st r1 clock1 s pts1 Hst Hr1 Hs1)
    as (f1 & st1 & ev1 & Hf1 & E1 & Hst1 & Hp1 & _).
  destruct (run_unseen s between st1 Hst1 Hbetween) as (st2 & evb & Eb & Hst2 & Hp2).
  destruct (process_shows_once st2 r2 clock2 s pts2 Hst2 Hr2 Hs2)
    as (f2 & st3 & ev2 & Hf2 & E2 & _ & _ & Hcount).
  destruct (Hcount i note Hn) as [Hon Hoff].
  rewrite Hp2, Hp1 in Hon, Hoff.
  pose proof (fingers_up_length _ _ _ Hf1) as L1.
  pose proof (fingers_up_length _ _ _ Hf2) as L2.
  exists f1, f2, note, st1, ev1, st2, evb, st3, ev2.
  do 6 (split; [assumption|]).
  rewrite Hon, Hoff.
  pose proof (edges_from_ons s f1 f2 [] i note Hn) as Hon'.
  pose proof (edges_from_offs s f1 f2 [] i note Hn) as Hoff'.
  cbn [length app Nat.leb andb] in Hon', Hoff'. rewrite Hon', Hoff'.
  rewrite (nth_indep f1 2 0) by lia. rewrite (nth_indep f2 2 0) by lia.
  split; [intros Ha Hb; rewrite Ha, Hb; split; reflexivity|].
  split; [intros Ha Hb; rewrite Ha, Hb; split; reflexivity|].
  intros ->.
  destruct (nth i f2 0 =? 1) eqn:A; destruct (nth i f2 0 =? 0) eqn:B;
    try (split; reflexivity).
  exfalso; lia.
Qed.

Lemma finger_transition_frames_witness :
  let r1 := Hands.frame [(Hands.closed_hand Left, "Left"%string);
                         (Hands.closed_hand Right, "Right"%string)] in
  let between := [(Hands.one Left (Hands.thumb_only Left), fun _ : nat => 1700000001%Q)] in
  let r2 := Hands.one Right (Hands.thumb_only Right) in
  exists f1 f2 st1 ev1 st2 evb st3 ev2,
    fingers_up (enumerate_landmarks 0 (Hands.closed_hand Right)) "Right" = Some f1
    /\ fingers_up (enumerate_landmarks 0 (Hands.thumb_only Right)) "Right" = Some f2
    /\ nth 0 f1 0 = 0 /\ nth 0 f2 0 = 1
    /\ process init r1 (fun _ => 1700000000%Q) = Some (st1, ev1)
    /\ run st1 between = Some (st2, evb)
    /\ process st2 r2 (fun _ => 1700000002%Q) = Some (st3, ev2)
    /\ note_ons "la4" ev2 = 1%nat /\ note_offs "la4" ev2 = 0%nat.
Proof.
  destruct (finger_transition_frames init
              (Hands.frame [(Hands.closed_hand Left, "Left"%string);
                            (Hands.closed_hand Right, "Right"%string)])
              (fun _ => 1700000000%Q)
              [(Hands.one Left (Hands.thumb_only Left), fun _ : nat => 1700000001%Q)]
              (Hands.one Right (Hands.thumb_only Right))
              (fun _ => 1700000002%Q)
              Right (Hands.closed_hand Right) (Hands.thumb_only Right) 0%nat)
    as (f1 & f2 & note & st1 & ev1 & st2 & evb & st3 & ev2
        & Hf1 & Hf2 & Hn & E1 & Eb & E2 & Hup & _ & _).
  - split; reflexivity.
  - split; split; vm_compute; auto.
  - split; split; vm_compute; auto.
  - constructor; [|constructor].
    split; [split; split; vm_compute; auto|split; simpl; discriminate].
  - right. split; [simpl; discriminate|split; reflexivity].
  - left. split; [reflexivity|split; [reflexivity|simpl; discriminate]].
  - lia.
  - injection Hn as <-.
    assert (H1 : f1 = [0; 0; 0; 0; 0]) by (vm_compute in Hf1; now injection Hf1).
    assert (H2 : f2 = [1; 0; 0; 0; 0]) by (vm_compute in Hf2; now injection Hf2).
    subst f1 f2.
    destruct (Hup eq_refl eq_refl) as [Hon Hoff].
    exists [0; 0; 0; 0; 0], [1; 0; 0; 0; 0], st1, ev1, st2, evb, st3, ev2.
    repeat split; assumption.
Defined.

(** C2 as stated fails on frames that show a side twice. The same frame, with
    two hands that are both labelled "Right" (the first with the thumb
    raised, the second a fist), is processed twice, one second apart. No
    finger moves from the first frame to the second and the fingers stored
    for the right hand are the same after both, yet the second frame emits a
    NoteOn and a NoteOff of "la4", the note of the right thumb. *)
Lemma same_frame_twice_counterexample :
  exists st1 ev1 st2 ev2,
    process_frame init Hands.two_right 1700000000 = Some (st1, ev1)
    /\ process_frame st1 Hands.two_right 1700000001 = Some (st2, ev2)
    /\ previous_fingers Right st2 = previous_fingers Right st1
    /\ note_for Right 0 = Some "la4"%string
    /\ note_ons "la4" ev2 = 1%nat
    /\ note_offs "la4" ev2 = 1%nat.
Proof.
  do 4 eexists.
  split; [vm_compute; reflexivity|].
  split; [vm_compute; reflexivity|].
  repeat split.
Qed.

(** ** Two hands with the same label *)




(** ** Runs of frames and the cooldown *)

Lemma run_cons st r clock rest st' evs :
  run st ((r, clock) :: rest) = Some (st', evs) ->
  exists st1 ev1 ev2,
    process st r clock = Some (st1, ev1)
    /\ run st1 rest = Some (st', ev2)
    /\ evs = ev1 ++ ev2.
Proof.
  simpl. intros H.
  destruct (process st r clock) as [[st1 ev1]|]; [|discriminate H].
  destruct (run st1 rest) as [[st2 ev2]|] eqn:E; [|discriminate H].
  injection H as <- <-. exists st1, ev1, ev2. repeat split. exact E.
Qed.

Lemma run_wf frames :
  forall st st' evs, wf_state st -> run st frames = Some (st', evs) -> wf_state st'.
Proof.
  induction frames as [|[r clock] rest IH]; intros st st' evs Hst H.
  - simpl in H. now injection H as <- _.
  - apply run_cons in H as (st1 & ev1 & ev2 & H1 & H2 & _).
    eapply IH; [|exact H2]. eapply process_wf; [exact Hst|exact H1].
Qed.

(** Frames without a Chord leave the timer where it was. *)
Lemma run_timer frames :
  forall st st' evs,
    run st frames = Some (st', evs) -> chords evs = 0%nat ->
    last_chord_time st' = last_chord_time st.
Proof.
  induction frames as [|[r clock] rest IH]; intros st st' evs H Hc.
  - simpl in H. now injection H as <- _.
  - apply run_cons in H as (st1 & ev1 & ev2 & H1 & H2 & ->).
    rewrite chords_app in Hc.
    rewrite (IH _ _ _ H2) by lia.
    apply process_chords in H1 as [(_ & Ht)|([Hc1|[Hc1 _]] & _)]; [exact Ht|lia|lia].
Qed.

(** A frame whose clock readings are within the cooldown of the timer is
    handled without a Chord. *)
Lemma process_quiet st r clock st' evs :
  (clock 0%nat - last_chord_time st <= 1)%Q ->
  (clock 1%nat - last_chord_time st <= 1)%Q ->
  process st r clock = Some (st', evs) ->
  chords evs = 0%nat /\ last_chord_time st' = last_chord_time st.
Proof.
  intros H0 H1 E.
  apply process_chords in E as [E|(_ & [Ht|Ht] & Hlt)]; [exact E| |];
    rewrite Ht in Hlt; exfalso; lra.
Qed.

Lemma run_quiet frames :
  forall st,
    wf_state st -> Forall (within (last_chord_time st)) frames ->
    exists st' evs, run st frames = Some (st', evs) /\ chords evs = 0%nat.
Proof.
  induction frames as [|[r clock] rest IH]; intros st Hst Hall.
  - exists st, []. split; reflexivity.
  - inversion Hall as [|? ? (Hr & Hc0 & Hc1) Hrest]; subst. simpl in Hr, Hc0, Hc1.
    destruct (process_total st r clock Hst Hr) as (st1 & ev1 & E1).
    pose proof (process_wf _ _ _ _ _ Hst E1) as Hst1.
    destruct (process_quiet _ _ _ _ _ Hc0 Hc1 E1) as (Hc & Ht).
    destruct (IH st1 Hst1) as (st2 & ev2 & E2 & Hc2); [now rewrite Ht|].
    exists st2, (ev1 ++ ev2). simpl. rewrite E1, E2.
    split; [reflexivity|]. rewrite chords_app. lia.
Qed.

Lemma process_side_closing st s fingers now :
  length fingers = 5%nat -> length (previous_fingers s st) = 5%nat ->
  is_fist fingers = true -> last_fist s st = false ->
  (1 < now - last_chord_time st)%Q ->
  exists st' evs,
    process_side st s fingers now = Some (st', evs)
    /\ chords evs = 1%nat
    /\ In (Chord (hand_notes s)) evs
    /\ last_chord_time st' = now.
Proof.
  intros Hf Hp Hfist Hlast Hlt.
  destruct (process_side_total st s fingers now Hf Hp) as [st' E].
  pose proof (process_side_result _ _ _ _ _ _ E) as (_ & _ & _ & Ht & _).
  rewrite Hfist in E, Ht. rewrite (chord_due_edge st s now Hlast Hlt) in E, Ht.
  exists st'. eexists. split; [exact E|].
  destruct (edges_from_shape s (previous_fingers s st) fingers 0) as (Hc & _).
  rewrite chords_app, Hc. repeat split; [|exact Ht].
  apply in_or_app. right. now left.
Qed.

(** C1, as the code has it. When a frame emits a Chord, the timer holds the
    clock reading [t0] at which it was emitted, and from then on: frames whose
    clock readings are at most 1.0 past [t0] emit no Chord, whatever hands
    close a fist in them; and once frames have gone by without a Chord, the
    branch of either side run on a fist, for a side whose stored fist flag is
    false, at a reading more than 1.0 past [t0], emits the Chord of that
    side. In the frame itself a second Chord needs clock readings more than
    1.0 apart. *)
Theorem chord_cooldown_shared st r clock :
  wf_state st -> wf_results r ->
  exists st1 ev1,
    process st r clock = Some (st1, ev1)
    /\ ((clock 1%nat - clock 0%nat <= 1)%Q -> (chords ev1 <= 1)%nat)
    /\ (chords ev1 <> 0%nat ->
        (last_chord_time st1 = clock 0%nat \/ last_chord_time st1 = clock 1%nat)
        /\ (forall frames,
               Forall (within (last_chord_time st1)) frames ->
               exists st2 evs, run st1 frames = Some (st2, evs) /\ chords evs = 0%nat)
        /\ (forall frames st2 evs s fingers now,
               run st1 frames = Some (st2, evs) -> chords evs = 0%nat ->
               length fingers = 5%nat -> is_fist fingers = true ->
               last_fist s st2 = false -> (1 < now - last_chord_time st1)%Q ->
               exists st3 ev3,
                 process_side st2 s fingers now = Some (st3, ev3)
                 /\ chords ev3 = 1%nat
                 /\ In (Chord (hand_notes s)) ev3)).
Proof.
  intros Hst Hr.
  destruct (process_total st r clock Hst Hr) as (st1 & ev1 & E1).
  pose proof (process_wf _ _ _ _ _ Hst E1) as Hst1.
  exists st1, ev1. split; [exact E1|].
  destruct (process_chords _ _ _ _ _ E1) as [(Hc & Ht)|(Hc & Ht & Hlt)].
  - split; [lia|]. intros Hne. now contradiction Hne.
  - split.
    { intros Hle. destruct Hc as [Hc|[_ Hgt]]; [lia|exfalso; lra]. }
    intros _. split; [exact Ht|]. split.
    + intros frames Hall. now apply run_quiet.
    + intros frames st2 evs s fingers now Hrun Hquiet Hf Hfist Hlast Hnow.
      pose proof (run_wf _ _ _ _ Hst1 Hrun) as Hst2.
      pose proof (run_timer _ _ _ _ Hrun Hquiet) as Ht2.
      destruct (process_side_closing st2 s fingers now Hf)
        as (st3 & ev3 & E3 & Hc3 & Hin & _);
        [destruct Hst2, s; assumption|exact Hfist|exact Hlast|now rewrite Ht2|].
      exists st3, ev3. auto.
Qed.

Lemma chord_cooldown_shared_witness :
  let r := Hands.one Right (Hands.closed_hand Right) in
  let clock := fun _ : nat => 2%Q in
  wf_state init /\ wf_results r
  /\ (exists st1, process init r clock = Some (st1, [Chord right_hand_notes]))
  /\ exists st1 ev1,
       process init r clock = Some (st1, ev1)
       /\ ((clock 1%nat - clock 0%nat <= 1)%Q -> (chords ev1 <= 1)%nat)
       /\ (chords ev1 <> 0%nat ->
           (last_chord_time st1 = clock 0%nat \/ last_chord_time st1 = clock 1%nat)
           /\ (forall frames,
                  Forall (within (last_chord_time st1)) frames ->
                  exists st2 evs, run st1 frames = Some (st2, evs) /\ chords evs = 0%nat)
           /\ (forall frames st2 evs s fingers now,
                  run st1 frames = Some (st2, evs) -> chords evs = 0%nat ->
                  length fingers = 5%nat -> is_fist fingers = true ->
                  last_fist s st2 = false -> (1 < now - last_chord_time st1)%Q ->
                  exists st3 ev3,
                    process_side st2 s fingers now = Some (st3, ev3)
                    /\ chords ev3 = 1%nat
                    /\ In (Chord (hand_notes s)) ev3)).
Proof.
  assert (Hst : wf_state init) by (split; reflexivity).
  assert (Hr : wf_results (Hands.one Right (Hands.closed_hand Right)))
    by (repeat split; reflexivity).
  split; [exact Hst|]. split; [exact Hr|].
  split; [eexists; vm_compute; reflexivity|].
  exact (chord_cooldown_shared init (Hands.one Right (Hands.closed_hand Right))
                               (fun _ => 2%Q) Hst Hr).
Defined.

(** C1, as the specification has it, fails at the boundary: the right hand
    closes at timestamp 2 and its Chord is emitted; the left hand, whose fist
    flag is false, closes at timestamp 3, exactly 1.0 later, and no Chord is
    emitted, because the test of line 206 is a strict [>]. *)
Lemma cooldown_boundary_counterexample :
  exists st1 st2,
    process_frame init (Hands.one Right (Hands.closed_hand Right)) 2
    = Some (st1, [Chord right_hand_notes])
    /\ last_chord_time st1 = 2%Q
    /\ last_fist Left st1 = false
    /\ fingers_up (enumerate_landmarks 0 (Hands.closed_hand Left)) "Left"
       = Some [0; 0; 0; 0; 0]
    /\ is_fist [0; 0; 0; 0; 0] = true
    /\ (1 <= 3 - last_chord_time st1)%Q
    /\ process_frame st1 (Hands.one Left (Hands.closed_hand Left)) 3 = Some (st2, []).
Proof.
  do 2 eexists.
  split; [vm_compute; reflexivity|].
  split; [reflexivity|]. split; [reflexivity|]. split; [reflexivity|].
  split; [reflexivity|]. split; [vm_compute; discriminate|].
  vm_compute; reflexivity.
Qed.

(** ** The chord scenario *)

Lemma process_one st s pts clock fingers :
  pts <> [] ->
  fingers_up (enumerate_landmarks 0 pts) (side_label s) = Some fingers ->
  process st (Hands.one s pts) clock
  = match process_side st s fingers (clock 0%nat) with
    | Some (st', evs) => Some (st', evs)
    | None => None
    end.
Proof.
  intros Hne Hf. unfold process.
  rewrite (process_hand_seen st _ clock 0 s pts); [|reflexivity|exact Hne|reflexivity].
  rewrite Hf.
  destruct (process_side st s fingers (clock 0%nat)) as [[st' evs]|]; [|reflexivity].
  cbn. now rewrite app_nil_r.
Qed.

(** C3. The timestamps of the scenario are counted from an origin [T] of the
    clock; the code reads [time.time()], seconds since 1970, so all that is
    asked of [T] is that 0.3 past it is more than the cooldown past the 0 at
    which [__init__] sets the timer. From the initial state, a right hand is
    seen with all five fingers up (at any reading [t0]) and then, in the next
    frame, at [T + 0.3], with all five fingers down, whatever its 21
    landmarks otherwise are. Both frames are handled; the second emits
    exactly the five NoteOff of the right hand, in finger order, followed by
    one Chord of the right hand; and the frames that follow, whatever they
    show, emit no Chord as long as their clock readings are at most
    [T + 1.3]. *)
Theorem chord_scenario_any_origin (T t0 : Q) (up down : list (Z * Z)) :
  (7 # 10 < T)%Q ->
  length up = 21%nat -> length down = 21%nat ->
  fingers_up (enumerate_landmarks 0 up) "Right" = Some [1; 1; 1; 1; 1] ->
  fingers_up (enumerate_landmarks 0 down) "Right" = Some [0; 0; 0; 0; 0] ->
  exists st1 ev1 st2,
    process_frame init (Hands.one Right up) t0 = Some (st1, ev1)
    /\ process_frame st1 (Hands.one Right down) (T + (3 # 10))
       = Some (st2, map NoteOff right_hand_notes ++ [Chord right_hand_notes])
    /\ forall frames,
        Forall (within (T + (3 # 10))) frames ->
        exists st3 evs, run st2 frames = Some (st3, evs) /\ chords evs = 0%nat.
Proof.
  intros HT Lup Ldown Hup Hdown.
  assert (Nup : up <> []) by (intros ->; discriminate Lup).
  assert (Ndown : down <> []) by (intros ->; discriminate Ldown).
  unfold process_frame.
  rewrite (process_one init Right up _ [1; 1; 1; 1; 1] Nup Hup).
  destruct (process_side_total init Right [1; 1; 1; 1; 1] t0 eq_refl eq_refl) as [st1 E1].
  rewrite E1. exists st1. eexists.
  pose proof (process_side_result _ _ _ _ _ _ E1) as (_ & Hp1 & Hf1 & Ht1 & Ho1 & _).
  pose proof (process_side_wf init Right [1; 1; 1; 1; 1] t0 st1 _ init_wf eq_refl E1) as Hst1.
  change (chord_due init Right (is_fist [1; 1; 1; 1; 1]) t0) with false in Ht1.
  change (is_fist [1; 1; 1; 1; 1]) with false in Hf1.
  rewrite (process_one st1 Right down _ [0; 0; 0; 0; 0] Ndown Hdown).
  destruct (process_side_total st1 Right [0; 0; 0; 0; 0] (T + (3 # 10)) eq_refl)
    as [st2 E2]; [now rewrite Hp1|].
  rewrite E2. exists st2.
  pose proof (process_side_result _ _ _ _ _ _ E2) as (_ & _ & _ & Ht2 & _).
  pose proof (process_side_wf st1 Right [0; 0; 0; 0; 0] _ st2 _ Hst1 eq_refl E2) as Hst2.
  rewrite Hp1. change (is_fist [0; 0; 0; 0; 0]) with true in *.
  assert (Hd : chord_due st1 Right true (T + (3 # 10)) = true).
  { apply chord_due_edge; [exact Hf1|]. rewrite Ht1. simpl. lra. }
  rewrite Hd in *.
  split; [reflexivity|]. split; [reflexivity|].
  intros frames Hall. apply run_quiet; [exact Hst2|now rewrite Ht2].
Qed.

Lemma chord_scenario_any_origin_witness :
  let T := 1700000000%Q in
  exists st1 ev1 st2,
    process_frame init (Hands.one Right (Hands.open_hand Right)) (T + (1 # 10))
    = Some (st1, ev1)
    /\ process_frame st1 (Hands.one Right (Hands.closed_hand Right)) (T + (3 # 10))
       = Some (st2, map NoteOff right_hand_notes ++ [Chord right_hand_notes])
    /\ forall frames,
        Forall (within (T + (3 # 10))) frames ->
        exists st3 evs, run st2 frames = Some (st3, evs) /\ chords evs = 0%nat.
Proof.
  apply (chord_scenario_any_origin 1700000000 (1700000000 + (1 # 10))
           (Hands.open_hand Right) (Hands.closed_hand Right)).
  - reflexivity.
  - reflexivity.
  - reflexivity.
  - reflexivity.
  - reflexivity.
Defined.

(** * Further properties of the code *)

Import View BoundingBox.

(** ** The extractor: failure, flags, labels, landmarks read *)

Lemma fingers_up_short landmark_list hand_type :
  (0 < length landmark_list < 21)%nat -> fingers_up landmark_list hand_type = None.
Proof.
  intros [Hpos Hlt].
  do 21 (destruct landmark_list as [|? landmark_list];
         [try (exfalso; simpl in Hpos; lia);
          unfold fingers_up, thumb_up; simpl;
          try reflexivity; destruct (String.eqb hand_type "Right"); reflexivity|]).
  exfalso. simpl in Hlt. lia.
Qed.

Lemma fingers_up_long landmark_list hand_type :
  (21 <= length landmark_list)%nat ->
  exists fingers, fingers_up landmark_list hand_type = Some fingers.
Proof.
  intros Hlen.
  do 21 (destruct landmark_list as [|? landmark_list]; [exfalso; simpl in Hlen; lia|]).
  unfold fingers_up, thumb_up. simpl.
  destruct (String.eqb hand_type "Right"); eauto.
Qed.

Lemma fingers_up_none_iff landmark_list hand_type :
  fingers_up landmark_list hand_type = None
  <-> (0 < length landmark_list < 21)%nat.
Proof.
  split.
  - intros Hnone.
    destruct (Nat.eq_dec (length landmark_list) 0) as [H0|H0].
    + destruct landmark_list; simpl in Hnone, H0; [discriminate Hnone|discriminate H0].
    + destruct (Nat.lt_ge_cases (length landmark_list) 21) as [Hlt|Hge]; [lia|].
      destruct (fingers_up_long landmark_list hand_type Hge) as [f Hf].
      rewrite Hf in Hnone. discriminate Hnone.
  - apply fingers_up_short.
Qed.

(** X1. The extractor raises exactly on a list of 1 to 20 landmarks: an empty
    list is answered with five zeros, and from 21 landmarks on every index
    it reads is there. *)
Theorem fingers_up_fails_iff landmark_list hand_type :
  fingers_up landmark_list hand_type = None
  <-> (0 < length landmark_list < 21)%nat.
Proof. exact (fingers_up_none_iff landmark_list hand_type). Qed.

(** Takes apart a chain of binds that is known to succeed. *)
Ltac bind_inv H :=
  repeat match type of H with
         | context [match ?c with Some _ => _ | None => _ end] =>
             destruct c eqn:?; cbv beta iota in H; try discriminate H
         end.

Lemma flag_is_flag (b : bool) : flag b = 0 \/ flag b = 1.
Proof. destruct b; [right|left]; reflexivity. Qed.

Lemma thumb_up_flag landmark_list hand_type f :
  thumb_up landmark_list hand_type = Some f -> f = 0 \/ f = 1.
Proof.
  unfold thumb_up. intros H. bind_inv H.
  destruct (String.eqb hand_type "Right"); injection H as <-; apply flag_is_flag.
Qed.

Lemma finger_up_flag landmark_list id f :
  finger_up landmark_list id = Some f -> f = 0 \/ f = 1.
Proof.
  unfold finger_up. intros H. bind_inv H.
  injection H as <-. apply flag_is_flag.
Qed.

Lemma fingers_loop_flags landmark_list ids :
  forall fs, fingers_loop landmark_list ids = Some fs -> flags fs.
Proof.
  induction ids as [|id rest IH]; intros fs H; simpl in H.
  - injection H as <-. constructor.
  - destruct (finger_up landmark_list id) as [f|] eqn:Ef; [|discriminate H].
    destruct (fingers_loop landmark_list rest) as [fs'|]; [|discriminate H].
    injection H as <-. constructor; [eapply finger_up_flag; exact Ef|now apply IH].
Qed.

Lemma fingers_up_five_flags landmark_list hand_type fingers :
  fingers_up landmark_list hand_type = Some fingers ->
  length fingers = 5%nat /\ flags fingers.
Proof.
  intros H. split; [eapply fingers_up_length; exact H|].
  unfold fingers_up in H. destruct landmark_list as [|l0 ll].
  - injection H as <-. repeat constructor.
  - destruct (thumb_up (l0 :: ll) hand_type) as [th|] eqn:Et; [|discriminate H].
    destruct (fingers_loop (l0 :: ll) (seq 1 4)) as [fs|] eqn:El; [|discriminate H].
    injection H as <-.
    constructor; [eapply thumb_up_flag; exact Et|eapply fingers_loop_flags; exact El].
Qed.

(** X2. Whatever the landmarks and the label, a list the extractor returns
    has five entries, each 0 or 1. *)
Theorem fingers_up_flags landmark_list hand_type fingers :
  fingers_up landmark_list hand_type = Some fingers ->
  length fingers = 5%nat /\ flags fingers.
Proof. exact (fingers_up_five_flags landmark_list hand_type fingers). Qed.

Lemma fingers_up_flags_witness :
  fingers_up (enumerate_landmarks 0 (Hands.thumb_only Left)) "Left" = Some [1; 0; 0; 0; 0]
  /\ length [1; 0; 0; 0; 0] = 5%nat /\ flags [1; 0; 0; 0; 0].
Proof.
  split; [reflexivity|].
  exact (fingers_up_flags (enumerate_landmarks 0 (Hands.thumb_only Left)) "Left"
                          [1; 0; 0; 0; 0] eq_refl).
Defined.

(** X3. Only the label "Right" selects the right-hand thumb test: under any
    other label, known or not, the extractor answers as for "Left". *)
Theorem fingers_up_other_label landmark_list hand_type :
  hand_type <> "Right"%string ->
  fingers_up landmark_list hand_type = fingers_up landmark_list "Left".
Proof.
  intros Hne. apply String.eqb_neq in Hne.
  unfold fingers_up, thumb_up. rewrite Hne. reflexivity.
Qed.

Lemma fingers_up_other_label_witness :
  "Unknown"%string <> "Right"%string
  /\ fingers_up (enumerate_landmarks 0 (Hands.open_hand Left)) "Unknown"
     = fingers_up (enumerate_landmarks 0 (Hands.open_hand Left)) "Left".
Proof.
  split; [discriminate|].
  apply (fingers_up_other_label (enumerate_landmarks 0 (Hands.open_hand Left)) "Unknown").
  discriminate.
Defined.

(** X4. The extractor reads the first 21 landmarks only, and of a landmark
    only its coordinates: landmarks after the 21st and the [id] fields do not
    change its answer. *)
Theorem fingers_up_reads_21 landmark_list more hand_type :
  length landmark_list = 21%nat ->
  fingers_up (landmark_list ++ more) hand_type
  = fingers_up (map (fun l => {| lm_id := 0; px := px l; py := py l |}) landmark_list)
               hand_type.
Proof.
  intros Hlen.
  do 21 (destruct landmark_list as [|? landmark_list]; [discriminate Hlen|]).
  destruct landmark_list; [|discriminate Hlen].
  reflexivity.
Qed.

Lemma fingers_up_reads_21_witness :
  let hand := enumerate_landmarks 0 (Hands.open_hand Right) in
  length hand = 21%nat
  /\ fingers_up (hand ++ hand) "Right"
     = fingers_up (map (fun l => {| lm_id := 0; px := px l; py := py l |}) hand) "Right".
Proof.
  split; [reflexivity|].
  exact (fingers_up_reads_21 (enumerate_landmarks 0 (Hands.open_hand Right))
                             (enumerate_landmarks 0 (Hands.open_hand Right))
                             "Right" eq_refl).
Defined.

Lemma flags_sum_nonneg fingers : flags fingers -> 0 <= fold_right Z.add 0 fingers.
Proof.
  induction 1 as [|b rest [Hb|Hb] _ IH]; simpl; lia.
Qed.

Lemma is_fist_all_down fingers :
  flags fingers ->
  (is_fist fingers = true <-> Forall (fun b => b = 0) fingers).
Proof.
  unfold is_fist. intros Hf. rewrite Z.eqb_eq.
  induction Hf as [|b rest Hb Hrest IH]; simpl.
  - split; [constructor|reflexivity].
  - pose proof (flags_sum_nonneg rest Hrest) as Hpos.
    split.
    + intros Hsum. assert (b = 0) by (destruct Hb; lia). subst b.
      constructor; [reflexivity|]. apply IH. lia.
    + intros Hall. inversion Hall as [|? ? Hb0 Hr]; subst. apply IH in Hr. lia.
Qed.

(** X5. On a list of flags, as the extractor returns them, [is_fist] holds
    exactly when no finger is up; one raised finger is enough to deny it. *)
Theorem is_fist_iff_none_up fingers :
  flags fingers ->
  (is_fist fingers = true <-> Forall (fun b => b = 0) fingers).
Proof. exact (is_fist_all_down fingers). Qed.

Lemma is_fist_iff_none_up_witness :
  flags [0; 0; 1; 0; 0]
  /\ (is_fist [0; 0; 1; 0; 0] = true <-> Forall (fun b => b = 0) [0; 0; 1; 0; 0]).
Proof.
  assert (H : flags [0; 0; 1; 0; 0]) by (repeat constructor; auto).
  split; [exact H|exact (is_fist_iff_none_up [0; 0; 1; 0; 0] H)].
Defined.

(** ** [find_positions]: landmarks, absent hands, bounding box *)

Lemma enumerate_nth pts :
  forall id k l,
    nth_error (enumerate_landmarks id pts) k = Some l ->
    lm_id l = id + Z.of_nat k /\ nth_error pts k = Some (px l, py l).
Proof.
  induction pts as [|[x y] rest IH]; intros id k l H.
  - destruct k; discriminate H.
  - destruct k as [|k]; simpl in H.
    + injection H as <-. simpl. split; [lia|reflexivity].
    + apply IH in H as [Hid Hp]. split; [lia|exact Hp].
Qed.

(** X6. In the landmark list [find_positions] returns, the entry at position
    [k] carries the id [k] and the coordinates of point [k] of the hand asked
    for; so the indices the extractor uses are MediaPipe's landmark ids. A
    hand index past the detected hands gives the empty list and no label. *)
Theorem find_positions_landmarks r hand_no landmark_list hand_type :
  find_positions r hand_no = Some (landmark_list, hand_type) ->
  (forall k l,
      nth_error landmark_list k = Some l ->
      lm_id l = Z.of_nat k
      /\ exists pts, nth_error (multi_hand_landmarks r) hand_no = Some pts
                     /\ nth_error pts k = Some (px l, py l))
  /\ ((length (multi_hand_landmarks r) <= hand_no)%nat ->
      landmark_list = [] /\ hand_type = None).
Proof.
  intros H. split.
  - intros k l Hk.
    apply find_positions_cases in H as [[-> _]|(pts & Hp & -> & _)];
      [destruct k; discriminate Hk|].
    apply enumerate_nth in Hk as [Hid Hxy]. split; [lia|eauto].
  - intros Hlen.
    apply find_positions_cases in H as [H|(pts & Hp & _)]; [exact H|].
    exfalso. apply nth_error_None in Hlen. rewrite Hlen in Hp. discriminate Hp.
Qed.

Lemma find_positions_landmarks_witness :
  let r := Hands.one Left (Hands.open_hand Left) in
  find_positions r 0
  = Some (enumerate_landmarks 0 (Hands.open_hand Left), Some "Left"%string)
  /\ (forall k l,
         nth_error (enumerate_landmarks 0 (Hands.open_hand Left)) k = Some l ->
         lm_id l = Z.of_nat k
         /\ exists pts, nth_error (multi_hand_landmarks r) 0 = Some pts
                        /\ nth_error pts k = Some (px l, py l))
  /\ ((length (multi_hand_landmarks r) <= 0)%nat ->
      enumerate_landmarks 0 (Hands.open_hand Left) = [] /\ Some "Left"%string = None).
Proof.
  split; [reflexivity|].
  exact (find_positions_landmarks (Hands.one Left (Hands.open_hand Left)) 0
           (enumerate_landmarks 0 (Hands.open_hand Left)) (Some "Left"%string) eq_refl).
Defined.

(** The bounding-box variant returns the landmark list and the label of
    [find_positions]. *)
Lemma find_positions_bbox_same r w h hand_no :
  find_positions r hand_no
  = match find_positions_bbox r w h hand_no with
    | Some (landmark_list, _, hand_type) => Some (landmark_list, hand_type)
    | None => None
    end.
Proof.
  unfold find_positions, find_positions_bbox.
  destruct (multi_hand_landmarks r) as [|h0 hs]; [reflexivity|].
  destruct (hand_no <? length (h0 :: hs))%nat; [|reflexivity].
  destruct (multi_handedness r) as [|l0 ls].
  - destruct (nth_error (h0 :: hs) hand_no); reflexivity.
  - destruct (nth_error (l0 :: ls) hand_no); [|reflexivity].
    destruct (nth_error (h0 :: hs) hand_no); reflexivity.
Qed.

Lemma extent_bounds pts :
  forall a b c d a' b' c' d',
    extent pts (a, b, c, d) = (a', b', c', d') ->
    a' <= a /\ b' <= b /\ c <= c' /\ d <= d'
    /\ forall x y, In (x, y) pts -> a' <= x <= c' /\ b' <= y <= d'.
Proof.
  induction pts as [|[x0 y0] rest IH]; intros a b c d a' b' c' d' H; simpl in H.
  - injection H as <- <- <- <-.
    split; [lia|]. split; [lia|]. split; [lia|]. split; [lia|]. intros x y [].
  - apply IH in H as (Ha & Hb & Hc & Hd & Hin).
    split; [lia|]. split; [lia|]. split; [lia|]. split; [lia|].
    intros x y [[= <- <-]|Hxy]; [lia|]. apply Hin in Hxy. lia.
Qed.

(** X7. For a hand with at least one point in an image of width [w] and
    height [h], the box [[x, y, bw, bh]] of [find_positions] lies inside the
    image with non-negative sides; it holds every landmark that is inside the
    image, and leaves the margin of 20 around every landmark that is at
    least 20 away from the image border. *)
Theorem bbox_inside_image r w h hand_no landmark_list box hand_type :
  0 <= w -> 0 <= h ->
  find_positions_bbox r w h hand_no = Some (landmark_list, box, hand_type) ->
  landmark_list <> [] ->
  exists x y bw bh,
    box = [x; y; bw; bh]
    /\ 0 <= x /\ 0 <= y /\ 0 <= bw /\ 0 <= bh /\ x + bw <= w /\ y + bh <= h
    /\ forall l, In l landmark_list ->
         (0 <= px l <= w -> x <= px l <= x + bw)
         /\ (0 <= py l <= h -> y <= py l <= y + bh)
         /\ (20 <= px l <= w - 20 -> x + 20 <= px l <= x + bw - 20)
         /\ (20 <= py l <= h - 20 -> y + 20 <= py l <= y + bh - 20).
Proof.
  intros Hw Hh H Hne.
  unfold find_positions_bbox in H.
  destruct (multi_hand_landmarks r) as [|h0 hs];
    [injection H as <- _ _; now contradiction Hne|].
  destruct (hand_no <? length (h0 :: hs))%nat;
    [|injection H as <- _ _; now contradiction Hne].
  destruct (match multi_handedness r with
            | [] => Some None
            | _ :: _ => label <- nth_error (multi_handedness r) hand_no ;; Some (Some label)
            end) as [ht|]; [|discriminate H].
  destruct (nth_error (h0 :: hs) hand_no) as [pts|]; [|discriminate H].
  injection H as <- <- _.
  unfold bbox.
  destruct (extent pts (w, h, 0, 0)) as [[[a b] c] d] eqn:E.
  apply extent_bounds in E as (Ha & Hb & Hc & Hd & Hin).
  assert (Hsome : exists x0 y0, In (x0, y0) pts).
  { destruct pts as [|[x0 y0] rest]; [now contradiction Hne|].
    exists x0, y0. now left. }
  destruct Hsome as (x0 & y0 & H0). apply Hin in H0.
  do 4 eexists. split; [reflexivity|].
  repeat split; try lia;
    match goal with
    | Hl : In ?l (enumerate_landmarks 0 pts) |- _ =>
        apply In_nth_error in Hl as [k Hk];
        apply enumerate_nth in Hk as [_ Hk];
        apply nth_error_In in Hk; apply Hin in Hk; lia
    end.
Qed.

Lemma bbox_inside_image_witness :
  let r := Hands.one Right (Hands.open_hand Right) in
  let ll := enumerate_landmarks 0 (Hands.open_hand Right) in
  0 <= 640 /\ 0 <= 480
  /\ find_positions_bbox r 640 480 0 = Some (ll, [0; 0; 30; 30], Some "Right"%string)
  /\ ll <> []
  /\ exists x y bw bh,
       [0; 0; 30; 30] = [x; y; bw; bh]
       /\ 0 <= x /\ 0 <= y /\ 0 <= bw /\ 0 <= bh /\ x + bw <= 640 /\ y + bh <= 480
       /\ forall l, In l ll ->
            (0 <= px l <= 640 -> x <= px l <= x + bw)
            /\ (0 <= py l <= 480 -> y <= py l <= y + bh)
            /\ (20 <= px l <= 640 - 20 -> x + 20 <= px l <= x + bw - 20)
            /\ (20 <= py l <= 480 - 20 -> y + 20 <= py l <= y + bh - 20).
Proof.
  split; [lia|]. split; [lia|]. split; [reflexivity|]. split; [discriminate|].
  apply (bbox_inside_image (Hands.one Right (Hands.open_hand Right)) 640 480 0
           (enumerate_landmarks 0 (Hands.open_hand Right)) [0; 0; 30; 30]
           (Some "Right"%string)); [lia|lia|reflexivity|discriminate].
Defined.

(** ** When [find_positions] fails *)

Lemma find_positions_none_iff r i :
  find_positions r i = None
  <-> ((i < length (multi_hand_landmarks r))%nat
       /\ multi_handedness r <> []
       /\ (length (multi_handedness r) <= i)%nat).
Proof.
  unfold find_positions.
  destruct (multi_hand_landmarks r) as [|h0 hs] eqn:Eh.
  - split; [discriminate|]. intros (Hlt & _). simpl in Hlt. lia.
  - destruct (Nat.ltb_spec i (length (h0 :: hs))) as [Hi|Hi].
    + destruct (nth_error (h0 :: hs) i) as [pts|] eqn:Ep;
        [|apply nth_error_None in Ep; lia].
      destruct (multi_handedness r) as [|l0 ls] eqn:El.
      * split; [discriminate|]. intros (_ & Hne & _). now contradiction Hne.
      * destruct (nth_error (l0 :: ls) i) as [label|] eqn:Elab.
        -- split; [discriminate|]. intros (_ & _ & Hle).
           apply nth_error_None in Hle. rewrite Hle in Elab. discriminate Elab.
        -- split; [|reflexivity]. intros _. apply nth_error_None in Elab.
           repeat split; [exact Hi|discriminate|exact Elab].
    + split; [discriminate|]. intros (Hlt & _). lia.
Qed.

Lemma truthy_iff label : truthy (Some label) = true <-> label <> ""%string.
Proof.
  destruct label; simpl; split; intros H; try reflexivity; try discriminate.
  now contradiction H.
Qed.

(** ** The keys of the virtual piano *)

Lemma set_active_map note b keys :
  set_active note b keys
  = map (fun k => if String.eqb (key_note k) note
                  then {| key_note := key_note k; key_active := b |} else k) keys.
Proof. reflexivity. Qed.

Lemma finger_edge_keys s previous idx finger_up keys keys' evs :
  finger_edge s previous idx finger_up keys = Some (keys', evs) ->
  keys' = map (key_edge s previous idx finger_up) keys.
Proof.
  unfold finger_edge. intros H.
  assert (Hid : forall cond1 cond2 : bool,
             cond1 = false -> cond2 = false ->
             keys = map (fun k =>
                           match note_for s idx with
                           | None => k
                           | Some note =>
                               if String.eqb (key_note k) note then
                                 if cond1 then {| key_note := key_note k; key_active := true |}
                                 else if cond2
                                      then {| key_note := key_note k; key_active := false |}
                                      else k
                               else k
                           end) keys).
  { intros c1 c2 -> ->. rewrite <- (map_id keys) at 1. apply map_ext. intros k.
    destruct (note_for s idx); [|reflexivity].
    destruct (String.eqb (key_note k) s0); reflexivity. }
  unfold key_edge.
  destruct (finger_up =? 1) eqn:E1; [|destruct (finger_up =? 0) eqn:E0].
  - assert (E0 : (finger_up =? 0) = false) by lia. rewrite E0.
    destruct (nth_error previous idx) as [p|] eqn:Ep; [|discriminate H].
    rewrite (nth_error_nth _ _ 2 Ep).
    destruct (p =? 0) eqn:Ez.
    + destruct (note_for s idx) as [note|]; [|discriminate H].
      injection H as <- _. reflexivity.
    + injection H as <- _. now apply Hid.
  - destruct (nth_error previous idx) as [p|] eqn:Ep; [|discriminate H].
    rewrite (nth_error_nth _ _ 2 Ep).
    destruct (p =? 1) eqn:Ez.
    + destruct (note_for s idx) as [note|]; [|discriminate H].
      injection H as <- _. simpl. apply map_ext. intros k.
      destruct (String.eqb (key_note k) note); reflexivity.
    + injection H as <- _. now apply Hid.
  - injection H as <- _. now apply Hid.
Qed.

Lemma finger_loop_keys s previous fingers :
  forall idx keys keys' evs,
    finger_loop s previous idx fingers keys = Some (keys', evs) ->
    keys' = map (key_from s previous idx fingers) keys.
Proof.
  induction fingers as [|f rest IH]; intros idx keys keys' evs H; simpl in H.
  - injection H as <- _. simpl. now rewrite map_id.
  - destruct (finger_edge s previous idx f keys) as [[k1 e1]|] eqn:E1; [|discriminate H].
    destruct (finger_loop s previous (S idx) rest k1) as [[k2 e2]|] eqn:E2; [|discriminate H].
    injection H as <- _.
    rewrite (IH _ _ _ _ E2), (finger_edge_keys _ _ _ _ _ _ _ E1), map_map.
    reflexivity.
Qed.

Lemma key_edge_note s previous idx f k : key_note (key_edge s previous idx f k) = key_note k.
Proof.
  unfold key_edge. destruct (note_for s idx); [|reflexivity].
  destruct (String.eqb (key_note k) s0); [|reflexivity].
  destruct ((f =? 1) && (nth idx previous 2 =? 0))%bool; [reflexivity|].
  destruct ((f =? 0) && (nth idx previous 2 =? 1))%bool; reflexivity.
Qed.

Lemma key_from_note s previous fingers :
  forall idx k, key_note (key_from s previous idx fingers k) = key_note k.
Proof.
  induction fingers as [|f rest IH]; intros idx k; simpl; [reflexivity|].
  now rewrite IH, key_edge_note.
Qed.

(** The flag of the key of finger [i] after the loop over the fingers. *)
Lemma key_from_active s previous fingers :
  forall pre i k,
    note_for s i = Some (key_note k) ->
    key_active (key_from s previous (length pre) fingers k)
    = if ((length pre <=? i)%nat && rising previous (pre ++ fingers) i)%bool then true
      else if ((length pre <=? i)%nat && falling previous (pre ++ fingers) i)%bool
           then false
           else key_active k.
Proof.
  unfold rising, falling.
  induction fingers as [|f rest IH]; intros pre i k Hn; simpl.
  - rewrite app_nil_r.
    destruct (Nat.leb_spec (length pre) i) as [Hle|Hlt]; [|reflexivity].
    rewrite nth_overflow by lia. reflexivity.
  - assert (Hn' : note_for s i = Some (key_note (key_edge s previous (length pre) f k)))
      by now rewrite key_edge_note.
    specialize (IH (pre ++ [f]) i _ Hn').
    rewrite length_app, <- app_assoc in IH. simpl in IH.
    replace (length pre + 1)%nat with (S (length pre)) in IH by lia.
    rewrite IH. clear IH Hn'.
    destruct (Nat.eq_dec (length pre) i) as [<-|Hne].
    + rewrite nth_middle_app, Nat.leb_refl.
      assert ((S (length pre) <=? length pre)%nat = false) as -> by (apply Nat.leb_gt; lia).
      cbn [andb]. unfold key_edge. rewrite Hn, String.eqb_refl.
      destruct ((f =? 1) && (nth (length pre) previous 2 =? 0))%bool; [reflexivity|].
      destruct ((f =? 0) && (nth (length pre) previous 2 =? 1))%bool; reflexivity.
    + assert ((S (length pre) <=? i)%nat = (length pre <=? i)%nat) as ->.
      { destruct (Nat.leb_spec (length pre) i); [apply Nat.leb_le|apply Nat.leb_gt]; lia. }
      assert (Hk : key_active (key_edge s previous (length pre) f k) = key_active k).
      { unfold key_edge. destruct (note_for s (length pre)) as [n'|] eqn:En; [|reflexivity].
        destruct (String.eqb_spec (key_note k) n') as [Heq|_]; [|reflexivity].
        exfalso. apply Hne. subst n'. eapply note_for_inj; eassumption. }
      now rewrite Hk.
Qed.

(** The keys of the side after one run of its branch. *)
Lemma process_side_keys st s fingers now st' evs :
  process_side st s fingers now = Some (st', evs) ->
  piano_keys s st'
  = (if releases st s fingers then set_all false else fun keys => keys)
      ((if chord_due st s (is_fist fingers) now then set_all true else fun keys => keys)
         (map (key_from s (previous_fingers s st) 0 fingers) (piano_keys s st))).
Proof.
  unfold process_side, releases. intros H.
  destruct (finger_loop s (previous_fingers s st) 0 fingers (piano_keys s st))
    as [[keys1 notes]|] eqn:E; [|discriminate H].
  apply finger_loop_keys in E. subst keys1.
  injection H as <- _.
  match goal with
  | |- context [store s fingers ?f ?k ?c st] =>
      destruct (store_fields s fingers f k c st) as (_ & _ & H3 & _)
  end.
  rewrite H3.
  destruct (chord_due st s (is_fist fingers) now);
    destruct (negb (is_fist fingers) && last_fist s st)%bool; reflexivity.
Qed.

Lemma chords_zero_no_chord evs notes : chords evs = 0%nat -> ~ In (Chord notes) evs.
Proof.
  unfold chords. intros H Hin.
  assert (Hf : In (Chord notes) (filter is_chord evs)) by (apply filter_In; auto).
  destruct (filter is_chord evs); [exact Hf|discriminate H].
Qed.

(** X9. When a run of a side's branch emits a Chord, it is the Chord of that
    side's notes and the last event of the run, after the NoteOff of the
    fingers that closed; every key of the side is then shown active, the fist
    flag is set and the timer holds the time of the run. *)
Theorem chord_lights_all_keys st s fingers now st' evs notes :
  process_side st s fingers now = Some (st', evs) ->
  In (Chord notes) evs ->
  notes = hand_notes s
  /\ (exists edges, evs = edges ++ [Chord (hand_notes s)] /\ chords edges = 0%nat)
  /\ Forall (fun k => key_active k = true) (piano_keys s st')
  /\ last_fist s st' = true
  /\ last_chord_time st' = now.
Proof.
  intros H Hin.
  pose proof (process_side_keys _ _ _ _ _ _ H) as Hk.
  apply process_side_result in H as (-> & _ & Hf & Ht & _).
  destruct (edges_from_shape s (previous_fingers s st) fingers 0) as (Hc & _).
  destruct (chord_due st s (is_fist fingers) now) eqn:Ed.
  - apply chord_due_elapsed in Ed as (_ & Hfist & _).
    apply in_app_or in Hin as [Hin|[[= <-]|[]]];
      [exfalso; exact (chords_zero_no_chord _ _ Hc Hin)|].
    split; [reflexivity|]. split; [eauto|].
    rewrite Hf, Hfist, Ht. repeat split.
    rewrite Hk. unfold releases. rewrite Hfist. simpl.
    unfold set_all. rewrite Forall_map. apply Forall_forall. reflexivity.
  - exfalso. rewrite app_nil_r in Hin. exact (chords_zero_no_chord _ _ Hc Hin).
Qed.

Lemma chord_lights_all_keys_witness :
  let st' := state_after init [(Left, [0; 0; 0; 0; 0], 2%Q)] in
  process_side init Left [0; 0; 0; 0; 0] 2 = Some (st', [Chord left_hand_notes])
  /\ In (Chord left_hand_notes) [Chord left_hand_notes]
  /\ left_hand_notes = hand_notes Left
  /\ (exists edges, [Chord left_hand_notes] = edges ++ [Chord (hand_notes Left)]
                    /\ chords edges = 0%nat)
  /\ Forall (fun k => key_active k = true) (piano_keys Left st')
  /\ last_fist Left st' = true
  /\ last_chord_time st' = 2%Q.
Proof.
  split; [vm_compute; reflexivity|]. split; [now left|].
  apply (chord_lights_all_keys init Left [0; 0; 0; 0; 0] 2
           (state_after init [(Left, [0; 0; 0; 0; 0], 2%Q)])
           [Chord left_hand_notes] left_hand_notes);
    [vm_compute; reflexivity|now left].
Defined.

Lemma flags_nth fingers i : flags fingers -> (i < length fingers)%nat ->
  nth i fingers 2 = 0 \/ nth i fingers 2 = 1.
Proof.
  intros Hf Hi. unfold flags in Hf. rewrite Forall_forall in Hf.
  apply Hf. now apply nth_In.
Qed.

(** X10. In the run in which a fist opens, every finger that comes up plays
    its note, yet all keys of the side end up shown inactive: the keys lit
    by the fingers are cleared again by the release of the fist. No Chord is
    emitted and the fist flag is cleared. *)
Theorem fist_release_clears_keys st s fingers now st' evs :
  steady st -> length fingers = 5%nat ->
  releases st s fingers = true ->
  process_side st s fingers now = Some (st', evs) ->
  Forall (fun k => key_active k = false) (piano_keys s st')
  /\ chords evs = 0%nat
  /\ last_fist s st' = false
  /\ forall i note,
       note_for s i = Some note -> nth i fingers 0 = 1 -> note_ons note evs = 1%nat.
Proof.
  intros Hst Hlen Hrel H.
  pose proof (process_side_keys _ _ _ _ _ _ H) as Hk.
  unfold releases in Hrel. apply andb_prop in Hrel as [Hnf Hlast].
  apply negb_true_iff in Hnf.
  destruct (Hst s) as (_ & _ & Hzero & _). specialize (Hzero Hlast).
  apply process_side_result in H as (-> & _ & Hf & _).
  assert (Hd : chord_due st s (is_fist fingers) now = false)
    by (unfold chord_due; now rewrite Hnf).
  rewrite Hd, app_nil_r.
  destruct (edges_from_shape s (previous_fingers s st) fingers 0) as (Hc & _).
  split.
  { rewrite Hk. unfold releases. rewrite Hnf, Hlast. simpl.
    unfold set_all. rewrite Forall_map. apply Forall_forall. reflexivity. }
  split; [exact Hc|]. split; [now rewrite Hf|].
  intros i note Hn Hup.
  pose proof (note_for_lt _ _ _ Hn) as Hi.
  pose proof (edges_from_ons s (previous_fingers s st) fingers [] i note Hn) as Hon.
  cbn [length app Nat.leb andb] in Hon. rewrite Hon, Hzero.
  rewrite (nth_indep fingers 2 0) by lia. rewrite Hup.
  do 5 (destruct i as [|i]; [reflexivity|]). lia.
Qed.

(** X11. In a run without a Chord and without a fist opening, the key of a
    finger follows the finger: it is shown active when the finger came up,
    inactive when it went down, and as before when the finger stayed; its
    note is never changed. *)
Theorem key_follows_finger st s fingers now st' evs i j k :
  process_side st s fingers now = Some (st', evs) ->
  chords evs = 0%nat -> releases st s fingers = false ->
  note_for s i = Some (key_note k) ->
  nth_error (piano_keys s st) j = Some k ->
  nth_error (piano_keys s st') j
  = Some {| key_note := key_note k;
            key_active := if rising (previous_fingers s st) fingers i then true
                          else if falling (previous_fingers s st) fingers i then false
                               else key_active k |}.
Proof.
  intros H Hc Hrel Hn Hj.
  pose proof (process_side_keys _ _ _ _ _ _ H) as Hk.
  apply process_side_chords in H as [(_ & _ & Hd)|(Hc1 & _)]; [|rewrite Hc1 in Hc; discriminate Hc].
  rewrite Hd, Hrel in Hk. rewrite Hk.
  rewrite nth_error_map, Hj. simpl. f_equal.
  pose proof (key_from_active s (previous_fingers s st) fingers [] i k Hn) as Ha.
  pose proof (key_from_note s (previous_fingers s st) fingers 0 k) as Hnote.
  cbn [length app Nat.leb andb] in Ha.
  destruct (key_from s (previous_fingers s st) 0 fingers k) as [n a].
  simpl in Ha, Hnote. now subst.
Qed.

Lemma key_follows_finger_witness :
  let st' := state_after init [(Right, [0; 1; 0; 0; 0], 0%Q)] in
  let k := {| key_note := "si4"; key_active := false |} in
  process_side init Right [0; 1; 0; 0; 0] 0 = Some (st', [NoteOn "si4"])
  /\ chords [NoteOn "si4"] = 0%nat
  /\ releases init Right [0; 1; 0; 0; 0] = false
  /\ note_for Right 1 = Some (key_note k)
  /\ nth_error (piano_keys Right init) 1 = Some k
  /\ nth_error (piano_keys Right st') 1 = Some {| key_note := "si4"; key_active := true |}.
Proof.
  repeat (split; [vm_compute; reflexivity|]).
  exact (key_follows_finger init Right [0; 1; 0; 0; 0] 0
           (state_after init [(Right, [0; 1; 0; 0; 0], 0%Q)]) [NoteOn "si4"] 1 1
           {| key_note := "si4"; key_active := false |}
           eq_refl eq_refl eq_refl eq_refl eq_refl).
Defined.

Lemma init_steady : steady init.
Proof.
  intros [|]; (split; [reflexivity|]); (split; [repeat constructor; auto|]);
    (split; [intros _; reflexivity|reflexivity]).
Qed.

Lemma fist_release_clears_keys_witness :
  let st := state_after init [(Right, [0; 0; 0; 0; 0], 0%Q)] in
  let st' := state_after st [(Right, [1; 1; 0; 0; 0], 1 # 2)] in
  steady st /\ length [1; 1; 0; 0; 0] = 5%nat
  /\ releases st Right [1; 1; 0; 0; 0] = true
  /\ process_side st Right [1; 1; 0; 0; 0] (1 # 2) = Some (st', [NoteOn "la4"; NoteOn "si4"])
  /\ Forall (fun k => key_active k = false) (piano_keys Right st')
  /\ chords [NoteOn "la4"; NoteOn "si4"] = 0%nat
  /\ last_fist Right st' = false
  /\ forall i note,
       note_for Right i = Some note -> nth i [1; 1; 0; 0; 0] 0 = 1 ->
       note_ons note [NoteOn "la4"; NoteOn "si4"] = 1%nat.
Proof.
  assert (Hst : steady (state_after init [(Right, [0; 0; 0; 0; 0], 0%Q)])).
  { intros [|]; (split; [reflexivity|]); (split; [repeat constructor; auto|]);
      (split; [intros _; reflexivity|reflexivity]). }
  split; [exact Hst|]. split; [reflexivity|]. split; [reflexivity|].
  split; [vm_compute; reflexivity|].
  exact (fist_release_clears_keys (state_after init [(Right, [0; 0; 0; 0; 0], 0%Q)])
           Right [1; 1; 0; 0; 0] (1 # 2)
           (state_after (state_after init [(Right, [0; 0; 0; 0; 0], 0%Q)])
                        [(Right, [1; 1; 0; 0; 0], 1 # 2)])
           [NoteOn "la4"; NoteOn "si4"] Hst eq_refl eq_refl eq_refl).
Defined.

(** ** What [process] keeps true from frame to frame *)

Lemma set_all_notes b keys : map key_note (set_all b keys) = map key_note keys.
Proof. unfold set_all. rewrite map_map. reflexivity. Qed.

Lemma process_side_key_notes st s fingers now st' evs :
  process_side st s fingers now = Some (st', evs) ->
  map key_note (piano_keys s st') = map key_note (piano_keys s st).
Proof.
  intros H. rewrite (process_side_keys _ _ _ _ _ _ H).
  assert (Hm : map key_note (map (key_from s (previous_fingers s st) 0 fingers)
                                 (piano_keys s st))
               = map key_note (piano_keys s st)).
  { rewrite map_map. apply map_ext. intros k. apply key_from_note. }
  destruct (releases st s fingers); destruct (chord_due st s (is_fist fingers) now);
    rewrite ?set_all_notes; exact Hm.
Qed.

Lemma all_zero_five fingers :
  length fingers = 5%nat -> Forall (fun b => b = 0) fingers -> fingers = [0; 0; 0; 0; 0].
Proof.
  intros Hlen Hall.
  do 5 (destruct fingers as [|? fingers]; [discriminate Hlen|]).
  destruct fingers; [|discriminate Hlen].
  repeat match goal with
         | H : Forall _ (_ :: _) |- _ => inversion H; clear H; subst
         end.
  reflexivity.
Qed.

Lemma process_side_steady st s fingers now st' evs :
  steady st -> length fingers = 5%nat -> flags fingers ->
  process_side st s fingers now = Some (st', evs) -> steady st'.
Proof.
  intros Hst Hlen Hfl H s'.
  pose proof (process_side_key_notes _ _ _ _ _ _ H) as Hkn.
  apply process_side_result in H as (_ & Hp & Hf & _ & Hop & Hof & Hok).
  destruct (Hst s') as (H1 & H2 & H3 & H4).
  destruct s, s'; simpl in *; rewrite ?Hp, ?Hf, ?Hop, ?Hof, ?Hok, ?Hkn;
    repeat split; try assumption;
    intros Hfist; apply all_zero_five; try assumption;
    now apply is_fist_all_down.
Qed.

Lemma process_hand_steady st r clock i st' evs :
  steady st -> process_hand st r clock i = Some (st', evs) -> steady st'.
Proof.
  intros Hst H.
  apply process_hand_cases in H as [[-> _]|(s & pts & fingers & _ & _ & Hf & Hs)];
    [assumption|].
  apply fingers_up_five_flags in Hf as [Hlen Hfl].
  eapply process_side_steady; eassumption.
Qed.

Lemma process_steady st r clock st' evs :
  steady st -> process st r clock = Some (st', evs) -> steady st'.
Proof.
  unfold process. intros Hst H.
  destruct (process_hand st r clock 0) as [[st1 ev0]|] eqn:E0; [|discriminate H].
  destruct (process_hand st1 r clock 1) as [[st2 ev1]|] eqn:E1; [|discriminate H].
  injection H as <- _.
  eapply process_hand_steady; [|exact E1]. eapply process_hand_steady; eassumption.
Qed.

(** X12. Every state reached from the initial one by calls of [process] that
    return stores exactly five flags (0 or 1) for each hand, has a fist flag
    set only over five stored zeros, and shows for each hand the keys of its
    five notes in their order; so no later call can fail on the stored
    lists. *)
Theorem reachable_steady frames st evs :
  run init frames = Some (st, evs) -> steady st.
Proof.
  assert (Hgen : forall fs st0 st1 ev1,
             steady st0 -> run st0 fs = Some (st1, ev1) -> steady st1).
  { induction fs as [|[r clock] rest IH]; intros st0 st1 ev1 Hst H.
    - simpl in H. now injection H as <- _.
    - apply run_cons in H as (sta & eva & evb & Ha & Hb & _).
      eapply IH; [|exact Hb]. eapply process_steady; eassumption. }
  intros H. exact (Hgen frames init st evs init_steady H).
Qed.

Lemma reachable_steady_witness :
  let frames := [(Hands.one Right (Hands.open_hand Right), fun _ : nat => 2%Q);
                 (Hands.one Right (Hands.closed_hand Right), fun _ : nat => 3%Q)] in
  exists st evs, run init frames = Some (st, evs) /\ steady st.
Proof.
  do 2 eexists. split; [vm_compute; reflexivity|].
  eapply (reachable_steady
            [(Hands.one Right (Hands.open_hand Right), fun _ : nat => 2%Q);
             (Hands.one Right (Hands.closed_hand Right), fun _ : nat => 3%Q)]).
  vm_compute. reflexivity.
Defined.

(** ** Notes on and off, chords and time along a run *)

Lemma side_eq_or (a b : side) : a = b \/ a = other b.
Proof. destruct a, b; auto. Qed.

Lemma process_side_balance st s fingers now st' evs s' i note :
  steady st -> length fingers = 5%nat -> flags fingers ->
  process_side st s fingers now = Some (st', evs) ->
  note_for s' i = Some note ->
  Z.of_nat (note_ons note evs) + nth i (previous_fingers s' st) 0
  = Z.of_nat (note_offs note evs) + nth i (previous_fingers s' st') 0.
Proof.
  intros Hst Hlen Hfl H Hn.
  pose proof (note_for_lt _ _ _ Hn) as Hi.
  destruct (side_eq_or s' s) as [-> | ->].
  - destruct (Hst s) as (Hplen & Hpfl & _).
    apply process_side_result in H as (-> & -> & _).
    rewrite note_ons_app, note_offs_app.
    destruct (note_counts_of_chord note (chord_due st s (is_fist fingers) now) (hand_notes s))
      as [-> ->].
    pose proof (edges_from_ons s (previous_fingers s st) fingers [] i note Hn) as Hon.
    pose proof (edges_from_offs s (previous_fingers s st) fingers [] i note Hn) as Hoff.
    cbn [length app Nat.leb andb] in Hon, Hoff. rewrite Hon, Hoff.
    rewrite (nth_indep (previous_fingers s st) 0 2) by lia.
    rewrite (nth_indep fingers 0 2) by lia.
    assert (Hold : nth i (previous_fingers s st) 2 = 0 \/ nth i (previous_fingers s st) 2 = 1)
      by (apply flags_nth; [exact Hpfl|lia]).
    assert (Hnew : nth i fingers 2 = 0 \/ nth i fingers 2 = 1)
      by (apply flags_nth; [exact Hfl|lia]).
    destruct Hold as [Hold|Hold]; destruct Hnew as [Hnew|Hnew];
      rewrite Hold, Hnew; reflexivity.
  - apply process_side_other in H as (Hp & _ & _ & Hev).
    destruct (note_for_of_side _ _ _ Hn) as [Hmem _].
    destruct (foreign_counts _ _ _ Hev Hmem) as [-> ->].
    now rewrite Hp.
Qed.

Lemma process_hand_balance st r clock idx st' evs s i note :
  steady st -> process_hand st r clock idx = Some (st', evs) ->
  note_for s i = Some note ->
  Z.of_nat (note_ons note evs) + nth i (previous_fingers s st) 0
  = Z.of_nat (note_offs note evs) + nth i (previous_fingers s st') 0.
Proof.
  intros Hst H Hn.
  apply process_hand_cases in H as [[-> ->]|(s0 & pts & fingers & _ & _ & Hf & Hs)];
    [reflexivity|].
  apply fingers_up_five_flags in Hf as [Hlen Hfl].
  eapply process_side_balance; eassumption.
Qed.

Lemma run_balance frames :
  forall st st' evs s i note,
    steady st -> run st frames = Some (st', evs) ->
    note_for s i = Some note ->
    Z.of_nat (note_ons note evs) + nth i (previous_fingers s st) 0
    = Z.of_nat (note_offs note evs) + nth i (previous_fingers s st') 0.
Proof.
  induction frames as [|[r clock] rest IH]; intros st st' evs s i note Hst H Hn.
  - simpl in H. injection H as <- <-. reflexivity.
  - apply run_cons in H as (st2 & ev12 & ev3 & H12 & H3 & ->).
    pose proof (process_steady _ _ _ _ _ Hst H12) as Hst2.
    specialize (IH _ _ _ s i note Hst2 H3 Hn).
    unfold process in H12.
    destruct (process_hand st r clock 0) as [[st1 ev1]|] eqn:E0; [|discriminate H12].
    destruct (process_hand st1 r clock 1) as [[st2' ev2]|] eqn:E1; [|discriminate H12].
    injection H12 as -> <-.
    pose proof (process_hand_steady _ _ _ _ _ _ Hst E0) as Hst1.
    pose proof (process_hand_balance _ _ _ _ _ _ s i note Hst E0 Hn) as B0.
    pose proof (process_hand_balance _ _ _ _ _ _ s i note Hst1 E1 Hn) as B1.
    rewrite !note_ons_app, !note_offs_app, !Nat2Z.inj_add. lia.
Qed.

(** X13. Along any run of frames from the initial state, the NoteOn and
    NoteOff of a finger's note keep in step: there are as many NoteOn as
    NoteOff when the finger is stored as down, and exactly one NoteOn more
    when it is stored as up; so at the end of every frame a note has been
    switched on at most once more than off, and never less. *)
Theorem note_on_off_balance frames st evs s i note :
  run init frames = Some (st, evs) ->
  note_for s i = Some note ->
  Z.of_nat (note_ons note evs)
  = Z.of_nat (note_offs note evs) + nth i (previous_fingers s st) 0.
Proof.
  intros H Hn.
  pose proof (run_balance frames init st evs s i note init_steady H Hn) as Hb.
  pose proof (note_for_lt _ _ _ Hn) as Hi.
  assert (H0 : nth i (previous_fingers s init) 0 = 0).
  { destruct s; do 5 (destruct i as [|i]; [reflexivity|]); lia. }
  rewrite H0 in Hb. lia.
Qed.

Lemma note_on_off_balance_witness :
  let frames := [(Hands.one Right (Hands.open_hand Right), fun _ : nat => 2%Q);
                 (Hands.one Right (Hands.thumb_only Right), fun _ : nat => 3%Q)] in
  exists st evs,
    run init frames = Some (st, evs)
    /\ note_for Right 1 = Some "si4"%string
    /\ Z.of_nat (note_ons "si4" evs)
       = Z.of_nat (note_offs "si4" evs) + nth 1 (previous_fingers Right st) 0.
Proof.
  do 2 eexists. split; [vm_compute; reflexivity|]. split; [reflexivity|].
  eapply (note_on_off_balance
            [(Hands.one Right (Hands.open_hand Right), fun _ : nat => 2%Q);
             (Hands.one Right (Hands.thumb_only Right), fun _ : nat => 3%Q)]);
    [vm_compute; reflexivity|reflexivity].
Defined.

Lemma paced_step a b t0 t1 t2 : paced a t0 t1 -> paced b t1 t2 -> paced (a + b) t0 t2.
Proof.
  unfold paced. intros [[-> ->]|[Ha Hta]] [[-> ->]|[Hb Htb]].
  - left. split; reflexivity.
  - right. split; assumption.
  - right. rewrite Nat.add_0_r. split; assumption.
  - right. split; [lia|]. rewrite Nat2Z.inj_add, inject_Z_plus. lra.
Qed.

Lemma process_hand_paced st r clock i st' evs :
  process_hand st r clock i = Some (st', evs) ->
  paced (chords evs) (last_chord_time st) (last_chord_time st').
Proof.
  intros H. unfold paced.
  apply process_hand_chords in H as [(-> & ->)|(-> & -> & Hlt)];
    [left; split; reflexivity|right; split; [discriminate|exact Hlt]].
Qed.

Lemma run_paced frames :
  forall st st' evs,
    run st frames = Some (st', evs) ->
    paced (chords evs) (last_chord_time st) (last_chord_time st').
Proof.
  induction frames as [|[r clock] rest IH]; intros st st' evs H.
  - simpl in H. injection H as <- <-. left. split; reflexivity.
  - apply run_cons in H as (st2 & ev12 & ev3 & H12 & H3 & ->).
    specialize (IH _ _ _ H3).
    unfold process in H12.
    destruct (process_hand st r clock 0) as [[st1 ev1]|] eqn:E0; [|discriminate H12].
    destruct (process_hand st1 r clock 1) as [[st2' ev2]|] eqn:E1; [|discriminate H12].
    injection H12 as -> <-.
    rewrite !chords_app.
    eapply paced_step; [|exact IH].
    eapply paced_step; eapply process_hand_paced; eassumption.
Qed.

(** X14. Chords are rate-limited along any run of frames, from any state:
    without a Chord [last_chord_time] did not move; when [n] Chords were
    emitted, with [n] at least 1, it advanced by more than [n] times the
    cooldown of 1.0. The timer never goes back. *)
Theorem chords_paced frames st st' evs :
  run st frames = Some (st', evs) ->
  (chords evs = 0%nat -> last_chord_time st' = last_chord_time st)
  /\ (chords evs <> 0%nat ->
      (inject_Z (Z.of_nat (chords evs)) < last_chord_time st' - last_chord_time st)%Q)
  /\ (last_chord_time st <= last_chord_time st')%Q.
Proof.
  intros H. apply run_paced in H as [[H0 Ht]|[Hn Hlt]].
  - split; [intros _; exact Ht|]. split; [intros Hne; now contradiction Hne|].
    rewrite Ht. apply Qle_refl.
  - split; [intros H0; now contradiction Hn|]. split; [intros _; exact Hlt|].
    assert (0 <= inject_Z (Z.of_nat (chords evs)))%Q
      by (change 0%Q with (inject_Z 0); rewrite <- Zle_Qle; lia).
    lra.
Qed.

Lemma chords_paced_witness :
  let frames := [(Hands.one Right (Hands.closed_hand Right), fun _ : nat => 2%Q);
                 (Hands.one Left (Hands.closed_hand Left), fun _ : nat => (5 # 2)%Q);
                 (Hands.one Right (Hands.open_hand Right), fun _ : nat => 3%Q);
                 (Hands.one Right (Hands.closed_hand Right), fun _ : nat => 4%Q)] in
  exists st evs,
    run init frames = Some (st, evs)
    /\ chords evs = 2%nat
    /\ (chords evs = 0%nat -> last_chord_time st = last_chord_time init)
    /\ (chords evs <> 0%nat ->
        (inject_Z (Z.of_nat (chords evs)) < last_chord_time st - last_chord_time init)%Q)
    /\ (last_chord_time init <= last_chord_time st)%Q.
Proof.
  do 2 eexists. split; [vm_compute; reflexivity|]. split; [reflexivity|].
  eapply (chords_paced
            [(Hands.one Right (Hands.closed_hand Right), fun _ : nat => 2%Q);
             (Hands.one Left (Hands.closed_hand Left), fun _ : nat => (5 # 2)%Q);
             (Hands.one Right (Hands.open_hand Right), fun _ : nat => 3%Q);
             (Hands.one Right (Hands.closed_hand Right), fun _ : nat => 4%Q)]).
  vm_compute. reflexivity.
Defined.

Lemma other_side_no_chord s evs :
  forallb (fun e => negb (of_side s e)) evs = true -> ~ In (Chord (hand_notes s)) evs.
Proof.
  intros Hall Hin. rewrite forallb_forall in Hall. specialize (Hall _ Hin).
  destruct s; discriminate Hall.
Qed.

Lemma process_hand_held st r clock idx st' evs s :
  last_fist s st = true -> holds_fist s r -> (idx < 2)%nat ->
  process_hand st r clock idx = Some (st', evs) ->
  ~ In (Chord (hand_notes s)) evs /\ last_fist s st' = true.
Proof.
  intros Hlast Hhold Hidx H. rewrite process_hand_observed in H.
  destruct (observed r idx) as [[[s0 f]|]|] eqn:Eo; [| |discriminate H].
  - destruct (side_eq_or s s0) as [-> | ->].
    + pose proof (Hhold idx f Hidx Eo) as Hfist.
      apply process_side_result in H as (-> & _ & Hf & _).
      assert (Hd : chord_due st s0 (is_fist f) (clock idx) = false)
        by (unfold chord_due; now rewrite Hlast, andb_false_r).
      rewrite Hd, app_nil_r, Hf. split; [|exact Hfist].
      destruct (edges_from_shape s0 (previous_fingers s0 st) f 0) as (Hc & _).
      now apply chords_zero_no_chord.
    + apply process_side_other in H as (_ & Hf & _ & Hev).
      split; [now apply other_side_no_chord|now rewrite Hf].
  - injection H as <- <-. split; [intros []|exact Hlast].
Qed.

(** X15. A fist that stays closed plays its Chord once: from a state in which
    the fist flag of a side is set, frames in which every handled hand of that
    side shows a fist emit no Chord of that side, however much time goes by
    and whatever the other hand does; the flag stays set. *)
Theorem held_fist_plays_once frames :
  forall st st' evs s,
    last_fist s st = true ->
    Forall (fun fr => holds_fist s (fst fr)) frames ->
    run st frames = Some (st', evs) ->
    ~ In (Chord (hand_notes s)) evs /\ last_fist s st' = true.
Proof.
  induction frames as [|[r clock] rest IH]; intros st st' evs s Hlast Hall H.
  - simpl in H. injection H as <- <-. split; [intros []|exact Hlast].
  - inversion Hall as [|? ? Hr Hrest]; subst. simpl in Hr.
    apply run_cons in H as (st2 & ev12 & ev3 & H12 & H3 & ->).
    unfold process in H12.
    destruct (process_hand st r clock 0) as [[st1 ev1]|] eqn:E0; [|discriminate H12].
    destruct (process_hand st1 r clock 1) as [[st2' ev2]|] eqn:E1; [|discriminate H12].
    injection H12 as -> <-.
    destruct (process_hand_held _ _ _ _ _ _ s Hlast Hr (Nat.lt_0_2) E0) as [N0 L1].
    destruct (process_hand_held _ _ _ _ _ _ s L1 Hr (Nat.lt_1_2) E1) as [N1 L2].
    destruct (IH _ _ _ s L2 Hrest H3) as [N3 L3].
    split; [|exact L3].
    intros Hin. apply in_app_or in Hin as [Hin|Hin]; [|now apply N3].
    apply in_app_or in Hin as [Hin|Hin]; [now apply N0|now apply N1].
Qed.

Lemma held_fist_plays_once_witness :
  let st := state_after init [(Right, [0; 0; 0; 0; 0], 2%Q)] in
  let frames := [(Hands.one Right (Hands.closed_hand Right), fun _ : nat => 10%Q);
                 (Hands.one Left (Hands.closed_hand Left), fun _ : nat => 20%Q)] in
  last_fist Right st = true
  /\ Forall (fun fr => holds_fist Right (fst fr)) frames
  /\ exists st' evs,
       run st frames = Some (st', evs)
       /\ ~ In (Chord (hand_notes Right)) evs /\ last_fist Right st' = true.
Proof.
  assert (Hall : Forall (fun fr => holds_fist Right (fst fr))
                   [(Hands.one Right (Hands.closed_hand Right), fun _ : nat => 10%Q);
                    (Hands.one Left (Hands.closed_hand Left), fun _ : nat => 20%Q)]).
  { repeat constructor; intros idx f Hidx Ho;
      (destruct idx as [|[|idx]]; [| |lia]); vm_compute in Ho;
      try discriminate Ho; injection Ho as <-; reflexivity. }
  split; [reflexivity|]. split; [exact Hall|].
  do 2 eexists. split; [vm_compute; reflexivity|].
  eapply (held_fist_plays_once
            [(Hands.one Right (Hands.closed_hand Right), fun _ : nat => 10%Q);
             (Hands.one Left (Hands.closed_hand Left), fun _ : nat => 20%Q)]
            (state_after init [(Right, [0; 0; 0; 0; 0], 2%Q)]));
    [reflexivity|exact Hall|vm_compute; reflexivity].
Defined.

(** ** The sound player *)

Lemma generate_lookup table :
  forall fs path,
    Player.file_lookup (Player.generate table fs) path
    = match Player.file_lookup fs path with
      | Some sound => Some sound
      | None =>
          if existsb (fun n => String.eqb (Player.file_path n) path) (map fst table)
          then Some true else None
      end.
Proof.
  induction table as [|[n f] rest IH]; intros fs path;
    cbn [Player.generate map fst existsb].
  - destruct (Player.file_lookup fs path); reflexivity.
  - unfold Player.file_exists.
    destruct (Player.file_lookup fs (Player.file_path n)) as [b|] eqn:En.
    + rewrite IH. destruct (Player.file_lookup fs path) eqn:Ep; [reflexivity|].
      destruct (String.eqb_spec (Player.file_path n) path) as [Heq|_]; [|reflexivity].
      rewrite Heq, Ep in En. discriminate En.
    + rewrite IH. cbn [Player.file_lookup].
      destruct (String.eqb_spec (Player.file_path n) path) as [Heq|_].
      * rewrite <- Heq, En. reflexivity.
      * reflexivity.
Qed.

Lemma generate_note name fs :
  In name Player.note_names ->
  Player.file_lookup (Player._generate_notes fs) (Player.file_path name)
  = match Player.file_lookup fs (Player.file_path name) with
    | Some sound => Some sound
    | None => Some true
    end.
Proof.
  intros Hin. unfold Player._generate_notes. rewrite generate_lookup.
  destruct (Player.file_lookup fs (Player.file_path name)); [reflexivity|].
  assert (He : existsb (fun n => String.eqb (Player.file_path n) (Player.file_path name))
                       (map fst SoundPlayer.note_freqs) = true).
  { apply existsb_exists. exists name. split; [exact Hin|apply String.eqb_refl]. }
  now rewrite He.
Qed.

Lemma load_valid names fs :
  (forall name, In name names ->
                Player.file_lookup fs (Player.file_path name) = Some true) ->
  forall notes warned,
    Player.load names fs notes warned
    = Some (fold_left (fun d name => Player.dict_set name (Player.file_path name) d)
                      names notes,
            warned).
Proof.
  induction names as [|n rest IH]; intros Hall notes warned; simpl; [reflexivity|].
  rewrite (Hall n (or_introl eq_refl)). apply IH. intros name Hn. apply Hall. now right.
Qed.

Lemma load_none_iff names fs :
  forall notes warned,
    Player.load names fs notes warned = None
    <-> exists name, In name names
                     /\ Player.file_lookup fs (Player.file_path name) = Some false.
Proof.
  induction names as [|n rest IH]; intros notes warned; simpl.
  - split; [discriminate|]. intros (name & [] & _).
  - destruct (Player.file_lookup fs (Player.file_path n)) as [[|]|] eqn:En.
    + rewrite IH. split.
      * intros (name & Hin & Hf). exists name. split; [now right|exact Hf].
      * intros (name & [<-|Hin] & Hf); [rewrite En in Hf; discriminate Hf|eauto].
    + split; [|reflexivity]. intros _. exists n. split; [now left|exact En].
    + rewrite IH. split.
      * intros (name & Hin & Hf). exists name. split; [now right|exact Hf].
      * intros (name & [<-|Hin] & Hf); [rewrite En in Hf; discriminate Hf|eauto].
Qed.

(** What [__init__] comes to, on any files. *)
Lemma player_init_result fs :
  (Player.init fs = None
   <-> exists name, In name Player.note_names
                    /\ Player.file_lookup fs (Player.file_path name) = Some false)
  /\ forall fs1 notes warned,
      Player.init fs = Some (fs1, notes, warned) ->
      warned = []
      /\ map fst notes = Player.note_names
      /\ (forall name, In name Player.note_names ->
                       Player.dict_get name notes = Some (Player.file_path name))
      /\ (forall path sound, Player.file_lookup fs path = Some sound ->
                             Player.file_lookup fs1 path = Some sound).
Proof.
  assert (Hbad : Player._load_notes (Player._generate_notes fs) = None
                 <-> exists name, In name Player.note_names
                                  /\ Player.file_lookup fs (Player.file_path name)
                                     = Some false).
  { unfold Player._load_notes. rewrite load_none_iff. split.
    - intros (name & Hin & Hf). exists name. split; [exact Hin|].
      rewrite (generate_note name fs Hin) in Hf.
      destruct (Player.file_lookup fs (Player.file_path name)) as [[|]|];
        [discriminate Hf|reflexivity|discriminate Hf].
    - intros (name & Hin & Hf). exists name. split; [exact Hin|].
      now rewrite (generate_note name fs Hin), Hf. }
  unfold Player.init. split.
  - rewrite <- Hbad.
    destruct (Player._load_notes (Player._generate_notes fs)) as [[notes warned]|];
      split; intros H; try reflexivity; discriminate H.
  - intros fs1 notes warned H.
    destruct (Player._load_notes (Player._generate_notes fs)) as [[notes' warned']|] eqn:El;
      [|discriminate H].
    injection H as <- <- <-.
    assert (Hvalid : forall name, In name Player.note_names ->
                Player.file_lookup (Player._generate_notes fs) (Player.file_path name)
                = Some true).
    { intros name Hin.
      destruct (Player.file_lookup (Player._generate_notes fs) (Player.file_path name))
        as [[|]|] eqn:Ef; [reflexivity| |].
      - assert (Hn : Player._load_notes (Player._generate_notes fs) = None)
          by (unfold Player._load_notes; apply load_none_iff; eauto).
        rewrite Hn in El. discriminate El.
      - rewrite (generate_note name fs Hin) in Ef.
        destruct (Player.file_lookup fs (Player.file_path name)); discriminate Ef. }
    unfold Player._load_notes in El. rewrite (load_valid _ _ Hvalid) in El.
    injection El as <- <-.
    split; [reflexivity|]. split; [reflexivity|]. split.
    + intros name Hin. simpl in Hin.
      repeat (destruct Hin as [<-|Hin]; [reflexivity|]). contradiction.
    + intros path sound Hp. unfold Player._generate_notes.
      now rewrite generate_lookup, Hp.
Qed.

(** X16. With [pygame] started and the directory of the notes writable
    (neither is modelled), [__init__] of the player raises exactly when the
    file of one of the ten notes exists and is not a sound [pygame] can load:
    [_generate_notes] leaves such a file alone and [_load_notes] fails on it.
    When [__init__] returns, the dictionary holds each of the ten notes under
    its own file, no warning was printed, and every file that existed is
    still what it was: missing files have been written, existing ones were
    left alone. *)
Theorem player_init_loads_all fs :
  (Player.init fs = None
   <-> exists name, In name Player.note_names
                    /\ Player.file_lookup fs (Player.file_path name) = Some false)
  /\ forall fs1 notes warned,
      Player.init fs = Some (fs1, notes, warned) ->
      warned = []
      /\ map fst notes = Player.note_names
      /\ (forall name, In name Player.note_names ->
                       Player.dict_get name notes = Some (Player.file_path name))
      /\ (forall path sound, Player.file_lookup fs path = Some sound ->
                             Player.file_lookup fs1 path = Some sound).
Proof. exact (player_init_result fs). Qed.

Lemma player_init_loads_all_witness :
  let fs := [("notes/do4.wav"%string, true); ("readme.txt"%string, false)] in
  exists fs1 notes,
    Player.init fs = Some (fs1, notes, [])
    /\ map fst notes = Player.note_names
    /\ Player.file_lookup fs1 "readme.txt" = Some false
    /\ Player.init [("notes/mi5.wav"%string, false)] = None.
Proof.
  destruct (player_init_loads_all
              [("notes/do4.wav"%string, true); ("readme.txt"%string, false)])
    as [_ Hok].
  destruct (player_init_loads_all [("notes/mi5.wav"%string, false)]) as [[_ Hbad] _].
  do 2 eexists. split; [vm_compute; reflexivity|].
  split; [reflexivity|]. split; [reflexivity|].
  apply Hbad. exists "mi5"%string. split; [simpl; tauto|reflexivity].
Defined.

Lemma play_chord_loaded notes names :
  (forall n, In n names -> exists sound, Player.dict_get n notes = Some sound) ->
  forallb is_play (Player.play_chord notes names) = true
  /\ length (Player.play_chord notes names) = length names.
Proof.
  induction names as [|n rest IH]; intros Hall; simpl; [split; reflexivity|].
  destruct (Hall n (or_introl eq_refl)) as [sound ->].
  destruct IH as [IH1 IH2]; [intros m Hm; apply Hall; now right|].
  simpl. now rewrite IH1, IH2.
Qed.

Lemma started_knows fs fs1 notes warned s n :
  Player.init fs = Some (fs1, notes, warned) ->
  mem n (hand_notes s) = true ->
  exists sound, Player.dict_get n notes = Some sound.
Proof.
  intros Hinit Hmem.
  destruct (player_init_result fs) as [_ Hok].
  destruct (Hok _ _ _ Hinit) as (_ & _ & Hget & _).
  exists (Player.file_path n). apply Hget.
  unfold mem in Hmem. apply existsb_exists in Hmem as (m & Hin & Heq).
  apply String.eqb_eq in Heq. subst m.
  destruct s; simpl in Hin |- *; intuition.
Qed.

Lemma edge_of_piano s previous idx f : Forall piano_event (edge_of s previous idx f).
Proof.
  unfold edge_of. destruct (note_for s idx) as [note|] eqn:En; [|constructor].
  destruct (note_for_of_side _ _ _ En) as [Hin _].
  destruct ((f =? 1) && (nth idx previous 2 =? 0))%bool;
    [repeat constructor; now exists s|].
  destruct ((f =? 0) && (nth idx previous 2 =? 1))%bool;
    [repeat constructor; now exists s|constructor].
Qed.

Lemma edges_from_piano s previous fingers :
  forall idx, Forall piano_event (edges_from s previous idx fingers).
Proof.
  induction fingers as [|f rest IH]; intros idx; simpl; [constructor|].
  apply Forall_app. split; [apply edge_of_piano|apply IH].
Qed.

Lemma process_hand_piano st r clock i st' evs :
  process_hand st r clock i = Some (st', evs) -> Forall piano_event evs.
Proof.
  intros H.
  apply process_hand_cases in H as [[_ ->]|(s & pts & fingers & _ & _ & _ & Hs)];
    [constructor|].
  apply process_side_result in Hs as (-> & _).
  apply Forall_app. split; [apply edges_from_piano|].
  destruct (chord_due st s (is_fist fingers) (clock i)); [|constructor].
  repeat constructor. now exists s.
Qed.

Lemma perform_piano notes evs :
  (forall s n, mem n (hand_notes s) = true ->
               exists sound, Player.dict_get n notes = Some sound) ->
  Forall piano_event evs ->
  forallb is_play (perform notes evs) = true
  /\ length (perform notes evs) = (length (filter is_on evs) + 5 * chords evs)%nat.
Proof.
  intros Hk Hall. induction Hall as [|e rest He _ IH]; [split; reflexivity|].
  destruct IH as [IH1 IH2].
  destruct e as [n|n|ns]; simpl in *.
  - destruct He as [s Hs]. destruct (Hk s n Hs) as [sound Hget].
    unfold Player.play_note. rewrite Hget. simpl.
    split; [exact IH1|]. unfold chords in *. simpl. now rewrite IH2.
  - split; [exact IH1|]. unfold chords in *. simpl. exact IH2.
  - destruct He as [s ->].
    destruct (play_chord_loaded notes (hand_notes s)) as [P1 P2].
    { intros n Hn. apply (Hk s). unfold mem. apply existsb_exists. exists n.
      split; [exact Hn|apply String.eqb_refl]. }
    rewrite forallb_app, length_app, P1, P2, IH1, IH2.
    split; [reflexivity|]. unfold chords. simpl. destruct s; simpl; lia.
Qed.

(** X17. The piano never asks a player that has started for a note it does
    not have: every event of a frame names notes of a hand (a Chord exactly
    the five notes of one hand), and with the dictionary of any player whose
    [__init__] returned, the calls these events stand for all start a sound,
    one for each NoteOn and five for each Chord; the line "Nota no
    encontrada" is never printed. *)
Theorem piano_notes_all_found fs fs1 notes warned st r clock st' evs :
  Player.init fs = Some (fs1, notes, warned) ->
  process st r clock = Some (st', evs) ->
  Forall piano_event evs
  /\ forallb is_play (perform notes evs) = true
  /\ length (perform notes evs) = (length (filter is_on evs) + 5 * chords evs)%nat.
Proof.
  unfold process. intros Hinit H.
  destruct (process_hand st r clock 0) as [[st1 ev0]|] eqn:E0; [|discriminate H].
  destruct (process_hand st1 r clock 1) as [[st2 ev1]|] eqn:E1; [|discriminate H].
  injection H as _ <-.
  assert (Hp : Forall piano_event (ev0 ++ ev1)).
  { apply Forall_app. split; eapply process_hand_piano; eassumption. }
  split; [exact Hp|].
  apply perform_piano; [|exact Hp]. intros s n. eapply started_knows. exact Hinit.
Qed.

Lemma piano_notes_all_found_witness :
  let r := Hands.one Left (Hands.open_hand Left) in
  let fs := [("notes/do4.wav"%string, true)] in
  exists fs1 notes st' evs,
    Player.init fs = Some (fs1, notes, [])
    /\ process init r (fun _ => 1700000000%Q) = Some (st', evs)
    /\ Forall piano_event evs
    /\ forallb is_play (perform notes evs) = true
    /\ length (perform notes evs) = (length (filter is_on evs) + 5 * chords evs)%nat.
Proof.
  do 4 eexists. split; [vm_compute; reflexivity|].
  split; [vm_compute; reflexivity|].
  eapply (piano_notes_all_found [("notes/do4.wav"%string, true)] _ _ []
            init (Hands.one Left (Hands.open_hand Left)) (fun _ => 1700000000%Q));
    vm_compute; reflexivity.
Defined.

(** ** Hands past the second *)

Lemma find_positions_first_two r i :
  (i < 2)%nat ->
  find_positions (first_two r) i = find_positions r i.
Proof.
  intros Hi. unfold find_positions, first_two. simpl.
  destruct (multi_hand_landmarks r) as [|h0 [|h1 hs]];
    destruct (multi_handedness r) as [|l0 [|l1 ls]];
    destruct i as [|[|i]]; try lia; reflexivity.
Qed.

(** The loop over the hands reads the first two hands and labels only. *)
Lemma process_first_two st r clock :
  process st (first_two r) clock = process st r clock.
Proof.
  unfold process, process_hand.
  rewrite (find_positions_first_two r 0) by lia.
  destruct (find_positions r 0) as [[ll0 ht0]|]; [|reflexivity].
  rewrite (find_positions_first_two r 1) by lia. reflexivity.
Qed.

Lemma drawable_wf r : drawable r -> wf_results r.
Proof.
  intros [Hlen Hall].
  assert (H : forall i, wf_hand r i).
  { intros i. split; [exact Hlen|].
    destruct (nth_error (multi_hand_landmarks r) i) as [pts|] eqn:Ep; [|exact I].
    apply nth_error_In in Ep. rewrite Forall_forall in Hall. now apply Hall. }
  split; apply H.
Qed.

(** X18. On a frame whose hands, however many, all have 21 landmarks and a
    label each (so that drawing them in [find_hands] goes through), [process]
    returns, and it returns the state and the events it returns on the first
    two hands alone: hands and labels past the second change neither. *)
Theorem later_hands_ignored st r clock :
  wf_state st -> drawable r ->
  exists st' evs,
    process st r clock = Some (st', evs)
    /\ process st (first_two r) clock = Some (st', evs).
Proof.
  intros Hst Hr.
  destruct (process_total st r clock Hst (drawable_wf r Hr)) as (st' & evs & E).
  exists st', evs. split; [exact E|]. now rewrite process_first_two.
Qed.

Lemma later_hands_ignored_witness :
  let r := Hands.frame [(Hands.thumb_only Right, "Right"%string);
                        (Hands.open_hand Left, "Left"%string);
                        (Hands.open_hand Right, "Right"%string)] in
  first_two r = Hands.frame [(Hands.thumb_only Right, "Right"%string);
                             (Hands.open_hand Left, "Left"%string)]
  /\ exists st' evs,
       process init r (fun _ => 1700000000%Q) = Some (st', evs)
       /\ process init (first_two r) (fun _ => 1700000000%Q) = Some (st', evs).
Proof.
  split; [reflexivity|].
  apply (later_hands_ignored init
           (Hands.frame [(Hands.thumb_only Right, "Right"%string);
                         (Hands.open_hand Left, "Left"%string);
                         (Hands.open_hand Right, "Right"%string)])
           (fun _ => 1700000000%Q)).
  - split; reflexivity.
  - split; [reflexivity|]. repeat constructor.
Defined.

(** ** The keys on the screen *)

Lemma keys_loop_nth sx sy kw kh notes :
  forall i n k,
    nth_error (Keyboard.keys_loop sx sy kw kh i notes) n = Some k ->
    Keyboard.kx k = sx + (i + Z.of_nat n) * kw
    /\ Keyboard.ky k = sy /\ Keyboard.kwidth k = kw /\ Keyboard.kheight k = kh
    /\ Keyboard.kactive k = false
    /\ nth_error notes n = Some (Keyboard.knote k).
Proof.
  induction notes as [|note rest IH]; intros i n k H; simpl in H.
  - destruct n; discriminate H.
  - destruct n as [|n]; simpl in H.
    + injection H as <-. simpl. repeat split. f_equal. lia.
    + apply IH in H as (Hx & Hy & Hw & Hh & Ha & Hn).
      repeat split; try assumption. rewrite Hx. f_equal. lia.
Qed.

Lemma keys_loop_notes sx sy kw kh notes :
  forall i,
    map (fun k => {| key_note := Keyboard.knote k; key_active := Keyboard.kactive k |})
        (Keyboard.keys_loop sx sy kw kh i notes)
    = map (fun note => {| key_note := note; key_active := false |}) notes.
Proof.
  induction notes as [|note rest IH]; intros i; simpl; [reflexivity|].
  now rewrite IH.
Qed.

(** X19. The keys built for a hand stand side by side on one row: key [n] of
    a keyboard begins 40 to the right of key [n - 1], all keys are 40 wide
    and 120 high at y = 50, so two keys of a keyboard never overlap; the left
    keyboard ends before the right one begins; the keys start inactive and
    carry the notes of the hand in order. *)
Theorem keys_side_by_side is_right n k :
  nth_error (Keyboard.create is_right) n = Some k ->
  Keyboard.kx k = (if is_right then 350 else 50) + 40 * Z.of_nat n
  /\ Keyboard.kwidth k = 40 /\ Keyboard.ky k = 50 /\ Keyboard.kheight k = 120
  /\ Keyboard.kactive k = false
  /\ nth_error (if is_right then right_hand_notes else left_hand_notes) n
     = Some (Keyboard.knote k)
  /\ (forall m k', (n < m)%nat ->
                   nth_error (Keyboard.create is_right) m = Some k' ->
                   Keyboard.kx k + Keyboard.kwidth k <= Keyboard.kx k')
  /\ (forall m k', is_right = false ->
                   nth_error (Keyboard.create true) m = Some k' ->
                   Keyboard.kx k + Keyboard.kwidth k <= Keyboard.kx k')
  /\ map (fun k => {| key_note := Keyboard.knote k; key_active := Keyboard.kactive k |})
         (Keyboard.create is_right)
     = _create_piano_visualization is_right.
Proof.
  intros H. unfold Keyboard.create in *.
  pose proof (keys_loop_nth _ _ _ _ _ _ _ _ H) as (Hx & Hy & Hw & Hh & Ha & Hn).
  assert (Hlt : (n < 5)%nat).
  { assert (Hl : (n < length (if is_right then right_hand_notes else left_hand_notes))%nat)
      by (apply nth_error_Some; rewrite Hn; discriminate).
    destruct is_right; exact Hl. }
  split; [rewrite Hx; destruct is_right; cbn [negb]; lia|].
  split; [exact Hw|]. split; [exact Hy|]. split; [exact Hh|].
  split; [exact Ha|]. split; [exact Hn|].
  split; [|split].
  - intros m k' Hnm Hm.
    apply keys_loop_nth in Hm as (Hx' & _). rewrite Hx, Hw, Hx'. lia.
  - intros m k' -> Hm.
    apply keys_loop_nth in Hm as (Hx' & _). rewrite Hx, Hw, Hx'. cbn [negb]. lia.
  - apply keys_loop_notes.
Qed.

Lemma keys_side_by_side_witness :
  let k := {| Keyboard.kx := 130; Keyboard.ky := 50; Keyboard.kwidth := 40;
              Keyboard.kheight := 120; Keyboard.kcolor := (255, 255, 255);
              Keyboard.kactive_color := (173, 216, 230); Keyboard.knote := "mi4";
              Keyboard.kactive := false; Keyboard.klabel := "MI4" |} in
  nth_error (Keyboard.create false) 2 = Some k
  /\ Keyboard.kx k = 50 + 40 * 2.
Proof.
  split; [reflexivity|].
  destruct (keys_side_by_side false 2
              {| Keyboard.kx := 130; Keyboard.ky := 50; Keyboard.kwidth := 40;
                 Keyboard.kheight := 120; Keyboard.kcolor := (255, 255, 255);
                 Keyboard.kactive_color := (173, 216, 230); Keyboard.knote := "mi4";
                 Keyboard.kactive := false; Keyboard.klabel := "MI4" |} eq_refl)
    as (Hx & _).
  exact Hx.
Defined.
